(** * CompositeParamScheduler

    A verification development for
    [classy_vision/optim/param_scheduler/composite_scheduler.py].

    The file has three layers.
    - The Python runtime the module relies on: a float interface with two
      instances (IEEE binary64, the arithmetic the code runs on, and the
      exact rationals, an idealisation without rounding),
      exceptions, and a state-and-exception monad for code that reads and
      writes a Python object.
    - The embedding of [CompositeParamScheduler]: the class attributes, the
      constructor, [from_config] (which runs on the caller's configuration
      dictionary) and [__call__] (which runs on [self]).
    - The theorems. *)

From Stdlib Require Import QArith Qabs Lqa ZArith PrimFloat Ascii String.
From stdpp Require Import gmap strings list.

Set Warnings "-inexact-float".

(** ** Python floats *)

(** The operations of Python's [float] that the module uses.  Division is
    partial: Python raises [ZeroDivisionError] on a zero divisor, here
    [None].  The three literals are the constants that occur in the source:
    the integer [0] that [sum] starts from, [1.0] and [1e-3]. *)
Class PyFloat (F : Type) := {
  fadd : F -> F -> F;
  fsub : F -> F -> F;
  fdiv : F -> F -> option F;
  fabs : F -> F;
  fgtb : F -> F -> bool;
  fltb : F -> F -> bool;
  fneb : F -> F -> bool;
  lit_0 : F;
  lit_1_0 : F;
  lit_1e_3 : F
}.

Definition Qltb (x y : Q) : bool := negb (Qle_bool y x).

(** Exact arithmetic: a float is the rational it denotes and no operation
    rounds.  This is an idealisation, without rounding, not-a-number or
    infinities, and a statement that is proved on it says so.  What depends
    on rounding (selection at a boundary, the rescaled progress, totality,
    the closing of the lengths) is stated for every instance of [PyFloat]
    and run on [binary64_float]. *)
#[export] Instance Q_float : PyFloat Q := {
  fadd := Qplus;
  fsub := Qminus;
  fdiv x y := if Qeq_bool y 0 then None else Some (x / y)%Q;
  fabs := Qabs;
  fgtb x y := Qltb y x;
  fltb := Qltb;
  fneb x y := negb (Qeq_bool x y);
  lit_0 := 0%Q;
  lit_1_0 := 1.0%Q;
  lit_1e_3 := 1e-3%Q
}.

(** IEEE binary64 with round-to-nearest-even, the arithmetic CPython runs. *)
#[export] Instance binary64_float : PyFloat float := {
  fadd := PrimFloat.add;
  fsub := PrimFloat.sub;
  fdiv x y := if PrimFloat.eqb y 0%float then None else Some (PrimFloat.div x y);
  fabs := PrimFloat.abs;
  fgtb x y := PrimFloat.ltb y x;
  fltb := PrimFloat.ltb;
  fneb x y := negb (PrimFloat.eqb x y);
  lit_0 := 0%float;
  lit_1_0 := 1.0%float;
  lit_1e_3 := 1e-3%float
}.

(** ** Exceptions and outcomes *)

Inductive exn :=
| AssertionError (msg : string)
| IndexError
| KeyError (key : string)
| ZeroDivisionError
| SchedulerError (what : string).

(** What running a piece of code produces: a value, an exception, or
    (for the bounded rendering of the [while] loop) exhausted fuel. *)
Inductive outcome (A : Type) :=
| Return (a : A)
| Raise (e : exn)
| OutOfFuel.
Arguments Return {A} a.
Arguments Raise {A} e.
Arguments OutOfFuel {A}.

(** ** Code that runs on a mutable object

    [St S A] is a computation that may read and write an object of type [S]
    (the caller's [config] dictionary in [from_config], [self] in
    [__call__]) and ends in an outcome of type [A].  The object as it is
    when the computation ends, also when it ends in an exception, is the
    second component. *)
Definition St (S A : Type) : Type := S -> outcome A * S.

Definition ret {S A} (a : A) : St S A := fun s => (Return a, s).

Definition raise {S A} (e : exn) : St S A := fun s => (Raise e, s).

Definition bind {S A B} (m : St S A) (k : A -> St S B) : St S B :=
  fun s =>
    match m s with
    | (Return a, s') => k a s'
    | (Raise e, s') => (Raise e, s')
    | (OutOfFuel, s') => (OutOfFuel, s')
    end.

Definition gets {S A} (f : S -> A) : St S A := fun s => (Return (f s), s).

Definition modify {S} (f : S -> S) : St S unit := fun s => (Return tt, f s).

Definition lift {S A} (o : outcome A) : St S A := fun s => (o, s).

Notation "'let*' x := m 'in' k" := (bind m (fun x => k))
  (at level 10, x name, m at level 100, k at level 200).
Notation "'let*' ' p := m 'in' k" := (bind m (fun x => match x with p => k end))
  (at level 10, p pattern, m at level 100, k at level 200).
Notation "'do' m 'in' k" := (bind m (fun _ => k))
  (at level 10, m at level 100, k at level 200).

(** [assert cond, msg] *)
Definition assert {S} (cond : bool) (msg : string) : St S unit :=
  if cond then ret tt else raise (AssertionError msg).

(** [l[i]] for an index [i >= 0]. *)
Definition getitem {S A} (l : list A) (i : nat) : St S A :=
  match l !! i with
  | Some x => ret x
  | None => raise IndexError
  end.

(** [x / y] *)
Definition divide {S F} `{PyFloat F} (x y : F) : St S F :=
  match fdiv x y with
  | Some q => ret q
  | None => raise ZeroDivisionError
  end.

(** [sum(l)]: Python adds from the left, starting from the integer [0]. *)
Definition sum {F} `{PyFloat F} (l : list F) : F := fold_left fadd l lit_0.

(** [l[:-1]] *)
Definition but_last {A} (l : list A) : list A := take (length l - 1) l.

(** [l[-1] = v] on a list: the last slot is overwritten; on an empty list
    Python raises [IndexError]. *)
Definition setitem_last {A} (l : list A) (v : A) : outcome (list A) :=
  match l with
  | [] => Raise IndexError
  | _ => Return (<[(length l - 1)%nat := v]> l)
  end.

(** [s.upper()] on ASCII text. *)
Definition ascii_upper (c : ascii) : ascii :=
  let n := nat_of_ascii c in
  if (97 <=? n)%nat && (n <=? 122)%nat then ascii_of_nat (n - 32) else c.

Fixpoint upper (s : string) : string :=
  match s with
  | EmptyString => EmptyString
  | String c rest => String (ascii_upper c) (upper rest)
  end.

(** [x in {a, b}] for strings. *)
Definition in_set (x : string) (s : gset string) : bool := bool_decide (x ∈ s).

(** ** The class *)

(** [class IntervalScaling(Enum)] *)
Inductive IntervalScaling := RESCALED | FIXED.

(** Modelled from the spec: [UpdateInterval] is imported from the package
    and its declaration is not in this file; the spec gives it the two
    values STEP and EPOCH, and [from_config] looks them up by the upper-cased
    strings "step" and "epoch". *)
Inductive UpdateInterval := STEP | EPOCH.

(** [UpdateInterval[name]] and [IntervalScaling[name]]: an enumeration is
    indexed by the name of a member, and raises [KeyError] for any other
    string. *)
Definition UpdateInterval_getitem {S} (name : string) : St S UpdateInterval :=
  if String.eqb name "STEP" then ret STEP
  else if String.eqb name "EPOCH" then ret EPOCH
  else raise (KeyError name).

Definition IntervalScaling_getitem {S} (name : string) : St S IntervalScaling :=
  if String.eqb name "RESCALED" then ret RESCALED
  else if String.eqb name "FIXED" then ret FIXED
  else raise (KeyError name).

Section Composite.
Context {F : Type} `{PyFloat F}.

(** A sub-scheduler is called on a progress value and returns a float or
    raises.  It is a function: the schedulers of the package compute their
    value from [where] alone. *)
Definition ClassyParamScheduler : Type := F -> outcome F.

(** The attributes [__init__] stores on [self]. *)
Record CompositeParamScheduler := {
  update_interval : UpdateInterval;
  _lengths : list F;
  _schedulers : list ClassyParamScheduler;
  _interval_scaling : list IntervalScaling
}.

(** [__init__] assigns its four arguments to the four attributes. *)
Definition __init__ (schedulers : list ClassyParamScheduler)
    (lengths : list F) (update_interval : UpdateInterval)
    (interval_scaling : list IntervalScaling) : CompositeParamScheduler :=
  {| update_interval := update_interval;
     _lengths := lengths;
     _schedulers := schedulers;
     _interval_scaling := interval_scaling |}.


(** *** [from_config] *)

(** A value stored in a sub-scheduler's configuration or under
    ["num_epochs"]. *)
Inductive pyval :=
| PyInt (z : Z)
| PyNum (x : F)
| PyStr (s : string).

(** The configuration of one sub-scheduler: a dictionary with string
    keys. *)
Definition SubConfig : Type := gmap string pyval.

(** The dictionary [config] that [from_config] receives, by the five keys
    the method looks at.  A field is [None] when the key is absent and
    holds the value stored under the key otherwise. *)
Record Config := {
  config_schedulers : option (list SubConfig);
  config_lengths : option (list F);
  config_update_interval : option string;
  config_interval_scaling : option (list string);
  config_num_epochs : option pyval
}.

(** [key in config] *)
Definition contains {A} (field : Config -> option A) : St Config bool :=
  gets (fun config => match field config with Some _ => true | None => false end).

(** [config[key]] *)
Definition item {A} (key : string) (field : Config -> option A)
    : St Config A :=
  let* v := gets field in
  match v with
  | Some x => ret x
  | None => raise (KeyError key)
  end.

(** [config["lengths"] = l]: used for the in-place update of the list that
    the dictionary holds under ["lengths"]. *)
Definition store_lengths (l : list F) (config : Config) : Config :=
  {| config_schedulers := config_schedulers config;
     config_lengths := Some l;
     config_update_interval := config_update_interval config;
     config_interval_scaling := config_interval_scaling config;
     config_num_epochs := config_num_epochs config |}.

(** [config["schedulers"] = l] *)
Definition store_schedulers (l : list SubConfig) (config : Config) : Config :=
  {| config_schedulers := Some l;
     config_lengths := config_lengths config;
     config_update_interval := config_update_interval config;
     config_interval_scaling := config_interval_scaling config;
     config_num_epochs := config_num_epochs config |}.

(** Modelled from the spec: [build_param_scheduler] is the factory of the
    package's registry and is not in this file; the spec treats it as an
    external collaborator that instantiates a scheduler from its
    configuration.  It is a parameter: it returns a scheduler or raises. *)
Variable build_param_scheduler : SubConfig -> outcome ClassyParamScheduler.

(** The [for] loop of lines 103-108, appending to [interval_scaling]. *)
Fixpoint for_interval_scale (scales : list string)
    (interval_scaling : list IntervalScaling)
    : St Config (list IntervalScaling) :=
  match scales with
  | [] => ret interval_scaling
  | interval_scale :: rest =>
      do assert (in_set interval_scale {[ "fixed"; "rescaled" ]})
           "Choices for interval scaline are 'fixed' or 'rescaled'" in
      let* member := IntervalScaling_getitem (upper interval_scale) in
      for_interval_scale rest (interval_scaling ++ [member])
  end.

(** The list comprehension of lines 119-121. *)
Fixpoint build_all (configs : list SubConfig)
    : St Config (list ClassyParamScheduler) :=
  match configs with
  | [] => ret []
  | scheduler :: rest =>
      let* built := lift (build_param_scheduler scheduler) in
      let* others := build_all rest in
      ret (built :: others)
  end.

(** Lines 77-88: the four assertions on the two lists. *)
Definition validate : St Config unit :=
  let* has_schedulers := contains config_schedulers in
  let* has_lengths := contains config_lengths in
  do assert (has_schedulers && has_lengths)
       "Composite scheduler needs both a list of schedulers and lengths" in
  let* schedulers := item "schedulers" config_schedulers in
  let* lengths := item "lengths" config_lengths in
  do assert (length schedulers =? length lengths)%nat
       "Schedulers and lengths must be same length" in
  let* schedulers := item "schedulers" config_schedulers in
  do assert (0 <? length schedulers)%nat
       "There must be at least one scheduler in the composite scheduler" in
  let* lengths := item "lengths" config_lengths in
  assert (fltb (fabs (fsub (sum lengths) lit_1_0)) lit_1e_3)
    "The sum of all values in lengths must be 1".

(** Lines 89-90: the last length is overwritten, in the list that the
    caller's dictionary holds, when the sum is not [1.0]. *)
Definition close_lengths : St Config unit :=
  let* lengths := item "lengths" config_lengths in
  if fneb (sum lengths) lit_1_0 then
    let* lengths := item "lengths" config_lengths in
    let value := fsub lit_1_0 (sum (but_last lengths)) in
    let* lengths := item "lengths" config_lengths in
    let* updated := lift (setitem_last lengths value) in
    modify (store_lengths updated)
  else ret tt.

(** Lines 91-97 *)
Definition read_update_interval : St Config UpdateInterval :=
  let update_interval := STEP in
  let* has_update_interval := contains config_update_interval in
  if has_update_interval then
    let* name := item "update_interval" config_update_interval in
    do assert (in_set name {[ "step"; "epoch" ]})
         "Choices for update interval are 'step' or 'epoch'" in
    let* name := item "update_interval" config_update_interval in
    UpdateInterval_getitem (upper name)
  else ret update_interval.

(** Lines 98-112 *)
Definition read_interval_scaling : St Config (list IntervalScaling) :=
  let interval_scaling := [] in
  let* has_interval_scaling := contains config_interval_scaling in
  if has_interval_scaling then
    let* schedulers := item "schedulers" config_schedulers in
    let* scales := item "interval_scaling" config_interval_scaling in
    do assert (length schedulers =? length scales)%nat
         "Schedulers and interval scaling must be the same length" in
    let* scales := item "interval_scaling" config_interval_scaling in
    for_interval_scale scales interval_scaling
  else
    let* schedulers := item "schedulers" config_schedulers in
    ret (replicate (length schedulers) RESCALED).

(** Lines 113-117: [config["schedulers"]] is rebound to a list of new
    dictionaries, each a copy of the old one with ["num_epochs"] set. *)
Definition propagate_num_epochs : St Config unit :=
  let* has_num_epochs := contains config_num_epochs in
  if has_num_epochs then
    let* schedulers := item "schedulers" config_schedulers in
    let* num_epochs := item "num_epochs" config_num_epochs in
    modify (store_schedulers
              ((fun schedule => <["num_epochs" := num_epochs]> schedule)
                 <$> schedulers))
  else ret tt.

(** Lines 118-125: the sub-schedulers are built and the instance is
    created; its [_lengths] is the list held by [config]. *)
Definition construct (update_interval : UpdateInterval)
    (interval_scaling : list IntervalScaling)
    : St Config CompositeParamScheduler :=
  let* schedulers := item "schedulers" config_schedulers in
  let* built := build_all schedulers in
  let* lengths := item "lengths" config_lengths in
  ret (__init__ built lengths update_interval interval_scaling).

(** [from_config(cls, config)], running on the caller's dictionary. *)
Definition from_config : St Config CompositeParamScheduler :=
  do validate in
  do close_lengths in
  let* update_interval := read_update_interval in
  let* interval_scaling := read_interval_scaling in
  do propagate_num_epochs in
  construct update_interval interval_scaling.

(** *** [__call__] *)

(** Modelled from the spec: [WHERE_EPSILON] is a class attribute of the
    base class [ClassyParamScheduler], which is not in this file; the spec
    describes it as a small fixed tie-break epsilon.  It is a parameter of
    the development. *)
Variable WHERE_EPSILON : F.

(** The [while] loop of [__call__], from the state [(i, running_total)].
    The loop test is the source's; [fuel] bounds the number of
    iterations. *)
Fixpoint while_loop (fuel : nat) (where_ : F) (i : nat) (running_total : F)
    : St CompositeParamScheduler (nat * F) :=
  let* schedulers := gets _schedulers in
  if fgtb (fadd where_ WHERE_EPSILON) running_total
     && (Z.of_nat i <? Z.of_nat (length schedulers) - 1)%Z
  then
    match fuel with
    | O => lift OutOfFuel
    | S fuel' =>
        let i := S i in
        let* lengths := gets _lengths in
        let* length_i := getitem lengths i in
        while_loop fuel' where_ i (fadd running_total length_i)
    end
  else ret (i, running_total).

(** Lines 129-135: the segment selection, which leaves the loop with the
    selected index [i] and the cumulative boundary [running_total]. *)
Definition select (where_ : F) : St CompositeParamScheduler (nat * F) :=
  let i := O in
  let* lengths := gets _lengths in
  let* running_total := getitem lengths i in
  let* schedulers := gets _schedulers in
  while_loop (length schedulers) where_ i running_total.

(** Lines 136-143: the delegation to the selected sub-scheduler. *)
Definition delegate (where_ : F) (i : nat) (running_total : F)
    : St CompositeParamScheduler F :=
  let* schedulers := gets _schedulers in
  let* scheduler := getitem schedulers i in
  let scheduler_where := where_ in
  let* scalings := gets _interval_scaling in
  let* interval_scale := getitem scalings i in
  let* scheduler_where :=
    match interval_scale with
    | RESCALED =>
        let* lengths := gets _lengths in
        let* length_i := getitem lengths i in
        let scheduler_start := fsub running_total length_i in
        divide (fsub where_ scheduler_start) length_i
    | FIXED => ret scheduler_where
    end in
  lift (scheduler scheduler_where).

(** [__call__(self, where)] *)
Definition __call__ (where_ : F) : St CompositeParamScheduler F :=
  let* '(i, running_total) := select where_ in
  delegate where_ i running_total.

End Composite.

Arguments CompositeParamScheduler F : clear implicits.
Arguments ClassyParamScheduler F : clear implicits.
Arguments Config F : clear implicits.
Arguments SubConfig F : clear implicits.
Arguments pyval F : clear implicits.

(** * Vocabulary of the statements *)

(** A computation is read-only when the object it runs on is the same
    afterwards, whatever the outcome. *)
Definition read_only {S A} (m : St S A) : Prop := forall s, snd (m s) = s.

Section Vocabulary.
Context {F : Type} `{PyFloat F}.
Variable WHERE_EPSILON : F.

(** The loop test of [__call__]. *)
Definition loop_test (self : CompositeParamScheduler F) (where_ : F)
    (i : nat) (running_total : F) : bool :=
  fgtb (fadd where_ WHERE_EPSILON) running_total
  && (Z.of_nat i <? Z.of_nat (length (_schedulers self)) - 1)%Z.

(** The value of [running_total] when the loop is at index [i]:
    [lengths[0] + ... + lengths[i]], added from the left as the loop
    does.  It is the upper boundary of segment [i]. *)
Fixpoint boundary (lengths : list F) (i : nat) : F :=
  match i with
  | O => nth O lengths lit_0
  | S j => fadd (boundary lengths j) (nth (S j) lengths lit_0)
  end.

(** [sum(lengths[:i])], the cumulative sum of the lengths of segments [0]
    to [i-1]. *)
Definition segment_start (lengths : list F) (i : nat) : F :=
  sum (take i lengths).

(** [__call__] at [where_] leaves the loop at index [i]. *)
Definition selects (self : CompositeParamScheduler F) (where_ : F) (i : nat)
    : Prop :=
  exists running_total,
    fst (select WHERE_EPSILON where_ self) = Return (i, running_total).

(** [self] after [__call__] has been run on each of [wheres] in turn. *)
Fixpoint after_calls (wheres : list F) (self : CompositeParamScheduler F)
    : CompositeParamScheduler F :=
  match wheres with
  | [] => self
  | where_ :: rest =>
      after_calls rest (snd (__call__ WHERE_EPSILON where_ self))
  end.

(** The three lists have one length, and there is at least one segment. *)
Definition well_formed (self : CompositeParamScheduler F) : Prop :=
  length (_lengths self) = length (_schedulers self)
  /\ length (_interval_scaling self) = length (_schedulers self)
  /\ (0 < length (_schedulers self))%nat.

End Vocabulary.

(** [where + WHERE_EPSILON > running_total], as the loop computes it in the
    float arithmetic at hand. *)
Definition beyond {F : Type} `{PyFloat F} (WHERE_EPSILON where_ running_total : F)
    : bool :=
  fgtb (fadd where_ WHERE_EPSILON) running_total.

(** Every length is strictly positive (the data model of the spec). *)
Definition positive_lengths (self : CompositeParamScheduler Q) : Prop :=
  Forall (fun length_i => (0 < length_i)%Q) (_lengths self).

(** ** Vocabulary of [from_config] *)

(** The two strings [from_config] accepts for the update cadence, and the
    two it accepts for a scaling mode, with the member each stands for. *)
Definition cadence_of_string (name : string) : option UpdateInterval :=
  if String.eqb name "step" then Some STEP
  else if String.eqb name "epoch" then Some EPOCH
  else None.

Definition scaling_of_string (name : string) : option IntervalScaling :=
  if String.eqb name "fixed" then Some FIXED
  else if String.eqb name "rescaled" then Some RESCALED
  else None.

Section ConfigVocabulary.
Context {F : Type} `{PyFloat F}.
Variable build_param_scheduler :
  SubConfig F -> outcome (ClassyParamScheduler F).

(** [abs(sum(lengths) - 1.0) < 1e-3] *)
Definition within_tolerance (lengths : list F) : bool :=
  fltb (fabs (fsub (sum lengths) lit_1_0)) lit_1e_3.

(** The ways in which a configuration is rejected by an assertion of
    [from_config]. *)
Inductive violation (config : Config F) : Prop :=
| missing_schedulers :
    config_schedulers config = None -> violation config
| missing_lengths :
    config_lengths config = None -> violation config
| lengths_mismatch schedulers lengths :
    config_schedulers config = Some schedulers ->
    config_lengths config = Some lengths ->
    length schedulers <> length lengths -> violation config
| no_scheduler :
    config_schedulers config = Some [] -> violation config
| sum_out_of_tolerance lengths :
    config_lengths config = Some lengths ->
    within_tolerance lengths = false -> violation config
| unknown_update_interval name :
    config_update_interval config = Some name ->
    cadence_of_string name = None -> violation config
| scaling_mismatch schedulers scales :
    config_schedulers config = Some schedulers ->
    config_interval_scaling config = Some scales ->
    length schedulers <> length scales -> violation config
| unknown_interval_scaling scales :
    config_interval_scaling config = Some scales ->
    mapM scaling_of_string scales = None -> violation config.

(** A configuration that passes every assertion. *)
Definition valid_config (config : Config F) : Prop :=
  exists schedulers lengths,
    config_schedulers config = Some schedulers
    /\ config_lengths config = Some lengths
    /\ length schedulers = length lengths
    /\ (0 < length schedulers)%nat
    /\ within_tolerance lengths = true
    /\ (forall name, config_update_interval config = Some name ->
          is_Some (cadence_of_string name))
    /\ (forall scales, config_interval_scaling config = Some scales ->
          length schedulers = length scales
          /\ is_Some (mapM scaling_of_string scales)).

(** The list of lengths after lines 89-90. *)
Definition closed_lengths (lengths : list F) : list F :=
  if fneb (sum lengths) lit_1_0 then
    <[(length lengths - 1)%nat := fsub lit_1_0 (sum (but_last lengths))]> lengths
  else lengths.

(** The caller's dictionary after lines 89-90. *)
Definition config_closed (config : Config F) (lengths : list F) : Config F :=
  if fneb (sum lengths) lit_1_0 then
    store_lengths (closed_lengths lengths) config
  else config.

(** The list of sub-configurations after lines 113-117. *)
Definition propagated (num_epochs : option (pyval F))
    (schedulers : list (SubConfig F)) : list (SubConfig F) :=
  match num_epochs with
  | Some value => (fun schedule => <["num_epochs" := value]> schedule) <$> schedulers
  | None => schedulers
  end.

(** The caller's dictionary after a run of [from_config] that passes the
    assertions. *)
Definition config_after (config : Config F) : Config F :=
  {| config_schedulers :=
       propagated (config_num_epochs config) <$> config_schedulers config;
     config_lengths := closed_lengths <$> config_lengths config;
     config_update_interval := config_update_interval config;
     config_interval_scaling := config_interval_scaling config;
     config_num_epochs := config_num_epochs config |}.

(** The cadence and the scaling modes that [from_config] reads. *)
Definition cadence_read (config : Config F) : UpdateInterval :=
  match config_update_interval config with
  | Some name => default STEP (cadence_of_string name)
  | None => STEP
  end.

Definition scaling_read (config : Config F) : list IntervalScaling :=
  match config_interval_scaling config with
  | Some scales => default [] (mapM scaling_of_string scales)
  | None => replicate (length (default [] (config_schedulers config))) RESCALED
  end.

(** The sub-schedulers built in order; the first failure ends the
    construction. *)
Fixpoint build_list (configs : list (SubConfig F))
    : outcome (list (ClassyParamScheduler F)) :=
  match configs with
  | [] => Return []
  | scheduler :: rest =>
      match build_param_scheduler scheduler with
      | Return built =>
          match build_list rest with
          | Return others => Return (built :: others)
          | Raise e => Raise e
          | OutOfFuel => OutOfFuel
          end
      | Raise e => Raise e
      | OutOfFuel => OutOfFuel
      end
  end.

(** The outcome of a run of [from_config] that passes the assertions: the
    instance, unless building a sub-scheduler fails. *)
Definition built_instance (config : Config F)
    : outcome (CompositeParamScheduler F) :=
  match build_list (default [] (config_schedulers (config_after config))) with
  | Return built =>
      Return (__init__ built
                (default [] (config_lengths (config_after config)))
                (cadence_read config) (scaling_read config))
  | Raise e => Raise e
  | OutOfFuel => OutOfFuel
  end.

End ConfigVocabulary.

(** The caller's dictionary after a run of [from_config] that one of its
    assertions ends: the lengths are closed when the failing assertion comes
    after lines 89-90, and nothing else is written. *)
Definition rejected_state {F : Type} `{PyFloat F} (config : Config F)
    : Config F :=
  match config_schedulers config, config_lengths config with
  | Some schedulers, Some lengths =>
      if (length schedulers =? length lengths)%nat
         && (0 <? length schedulers)%nat
         && within_tolerance lengths
      then config_closed config lengths
      else config
  | _, _ => config
  end.

(** Two runs fail in the same way: with the same exception. *)
Definition same_failure {A B : Type} (o : outcome A) (o' : outcome B) : Prop :=
  match o, o' with
  | Raise e, Raise e' => e = e'
  | OutOfFuel, OutOfFuel => True
  | _, _ => False
  end.

(** [config["num_epochs"]] written into one sub-configuration, when the key
    is present. *)
Definition with_epochs {F : Type} (num_epochs : option (pyval F))
    (schedule : SubConfig F) : SubConfig F :=
  match num_epochs with
  | Some value => <["num_epochs" := value]> schedule
  | None => schedule
  end.

(** ** Scenarios

    Concrete composites on which the statements are run, each in exact
    arithmetic and in binary64.  [echo] is a sub-scheduler that returns the
    progress value it is called on, so the outcome of [__call__] shows what
    the composite passed to it; [constant v] always returns [v]. *)
Module Scenario.

Definition echo {F : Type} : ClassyParamScheduler F := fun where_ => Return where_.

Definition constant {F : Type} (value : F) : ClassyParamScheduler F :=
  fun _ => Return value.

(** The tie-break epsilon of the scenarios, [1e-6]. *)
Definition epsilon : Q := 1e-6%Q.
Definition epsilon_binary64 : float := 1e-6%float.

(** Scenario A of the spec: lengths [[0.3, 0.7]], both rescaled. *)
Definition constant_then_echo : CompositeParamScheduler Q :=
  __init__ [constant 0.42%Q; echo] [0.3; 0.7]%Q STEP [RESCALED; RESCALED].

(** Scenario B of the spec: lengths [[0.5, 0.5]], both fixed. *)
Definition two_fixed : CompositeParamScheduler Q :=
  __init__ [constant 0%Q; echo] [0.5; 0.5]%Q STEP [FIXED; FIXED].

(** Scenario C of the spec: lengths [[0.33, 0.33, 0.34]]. *)
Definition three_way : CompositeParamScheduler Q :=
  __init__ [echo; echo; echo] [0.33; 0.33; 0.34]%Q STEP
    [RESCALED; RESCALED; RESCALED].


(** A first segment shorter than the epsilon. *)
Definition short_first : CompositeParamScheduler Q :=
  __init__ [echo; echo] [1e-7; 0.9999999]%Q STEP [RESCALED; RESCALED].
Definition short_first_binary64 : CompositeParamScheduler float :=
  __init__ [echo; echo] [1e-7; 0.9999999]%float STEP [RESCALED; RESCALED].

(** A registry that builds [echo] from every sub-configuration. *)
Definition build_echo {F : Type}
    : SubConfig F -> outcome (ClassyParamScheduler F) :=
  fun _ => Return echo.

Definition two_sub_configs {F : Type} : list (SubConfig F) :=
  [ {[ "name" := PyStr "constant" ]}; {[ "name" := PyStr "linear" ]} ].

(** Scenario D of the spec: lengths [[0.3, 0.7001]]. *)
Definition scenario_d : Config Q :=
  {| config_schedulers := Some two_sub_configs;
     config_lengths := Some [0.3; 0.7001]%Q;
     config_update_interval := None;
     config_interval_scaling := None;
     config_num_epochs := None |}.

(** The same lengths, with every optional key present. *)
Definition with_num_epochs : Config Q :=
  {| config_schedulers := Some two_sub_configs;
     config_lengths := Some [0.3; 0.7001]%Q;
     config_update_interval := Some "epoch";
     config_interval_scaling := Some ["fixed"; "rescaled"];
     config_num_epochs := Some (PyInt 90) |}.

(** Two schedulers, two lengths that sum to [1.0], and an update interval
    that is neither "step" nor "epoch". *)
Definition unknown_cadence : Config Q :=
  {| config_schedulers := Some two_sub_configs;
     config_lengths := Some [0.3; 0.7]%Q;
     config_update_interval := Some "batch";
     config_interval_scaling := None;
     config_num_epochs := None |}.
Definition scenario_d_binary64 : Config float :=
  {| config_schedulers := Some two_sub_configs;
     config_lengths := Some [0.3; 0.7001]%float;
     config_update_interval := None;
     config_interval_scaling := None;
     config_num_epochs := None |}.

Definition unknown_cadence_binary64 : Config float :=
  {| config_schedulers := Some two_sub_configs;
     config_lengths := Some [0.3; 0.7]%float;
     config_update_interval := Some "batch";
     config_interval_scaling := None;
     config_num_epochs := None |}.

(** Lengths with a zero entry, which [from_config] accepts. *)
Definition zero_tail : Config Q :=
  {| config_schedulers := Some two_sub_configs;
     config_lengths := Some [1.0; 0.0]%Q;
     config_update_interval := None;
     config_interval_scaling := None;
     config_num_epochs := None |}.
Definition zero_tail_binary64 : Config float :=
  {| config_schedulers := Some two_sub_configs;
     config_lengths := Some [1.0; 0.0]%float;
     config_update_interval := None;
     config_interval_scaling := None;
     config_num_epochs := None |}.

(** Lengths that sum to [1.0001] and an unknown update interval. *)
Definition rewritten_then_rejected : Config Q :=
  {| config_schedulers := Some two_sub_configs;
     config_lengths := Some [0.3; 0.7001]%Q;
     config_update_interval := Some "batch";
     config_interval_scaling := None;
     config_num_epochs := Some (PyInt 90) |}.

(** A registry that knows the "constant" family only. *)
Definition build_constant_only
    : SubConfig Q -> outcome (ClassyParamScheduler Q) :=
  fun schedule =>
    match schedule !! "name" with
    | Some (PyStr "constant") => Return (constant 0.42%Q)
    | _ => Raise (SchedulerError "unknown scheduler")
    end.

(** The instances that [from_config] returns for [scenario_d],
    [with_num_epochs] and [zero_tail] with the registry [build_echo]. *)
Definition scenario_d_instance : CompositeParamScheduler Q :=
  __init__ [echo; echo] [0.3; 1.0 - (0 + 0.3)]%Q STEP [RESCALED; RESCALED].

Definition with_num_epochs_instance : CompositeParamScheduler Q :=
  __init__ [echo; echo] [0.3; 1.0 - (0 + 0.3)]%Q EPOCH [FIXED; RESCALED].

Definition zero_tail_instance : CompositeParamScheduler Q :=
  __init__ [echo; echo] [1.0; 0.0]%Q STEP [RESCALED; RESCALED].

(** Scenarios A and C of the spec in binary64. *)
Definition constant_then_echo_binary64 : CompositeParamScheduler float :=
  __init__ [constant 0.42%float; echo] [0.3; 0.7]%float STEP
    [RESCALED; RESCALED].

Definition three_way_binary64 : CompositeParamScheduler float :=
  __init__ [echo; echo; echo] [0.33; 0.33; 0.34]%float STEP
    [RESCALED; RESCALED; RESCALED].

(** [with_num_epochs] in binary64. *)
Definition with_num_epochs_binary64 : Config float :=
  {| config_schedulers := Some two_sub_configs;
     config_lengths := Some [0.3; 0.7001]%float;
     config_update_interval := Some "epoch";
     config_interval_scaling := Some ["fixed"; "rescaled"];
     config_num_epochs := Some (PyInt 90) |}.

(** Lengths with a small negative entry, in binary64: their sum is one
    unit in the last place below [1.0]. *)
Definition negative_first_binary64 : Config float :=
  {| config_schedulers := Some two_sub_configs;
     config_lengths := Some [(-1e-16); 1.0]%float;
     config_update_interval := None;
     config_interval_scaling := None;
     config_num_epochs := None |}.

(** An instance made by [__init__] from empty lists. *)
Definition empty_composite : CompositeParamScheduler Q :=
  __init__ [] [] STEP [].

End Scenario.

(** * Properties *)

(** ** Computations that only read *)

Lemma read_only_ret {S A} (a : A) : read_only (S:=S) (ret a).
Proof. intros s. reflexivity. Qed.

Lemma read_only_raise {S A} (e : exn) : read_only (S:=S) (A:=A) (raise e).
Proof. intros s. reflexivity. Qed.

Lemma read_only_lift {S A} (o : outcome A) : read_only (S:=S) (lift o).
Proof. intros s. reflexivity. Qed.

Lemma read_only_gets {S A} (f : S -> A) : read_only (gets f).
Proof. intros s. reflexivity. Qed.

Lemma read_only_bind {S A B} (m : St S A) (k : A -> St S B) :
  read_only m -> (forall a, read_only (k a)) -> read_only (bind m k).
Proof.
  intros Hm Hk s. unfold bind. specialize (Hm s).
  destruct (m s) as [[a | e |] s']; simpl in Hm; subst s'; simpl; trivial.
  apply Hk.
Qed.

Lemma read_only_getitem {S A} (l : list A) (i : nat) :
  read_only (S:=S) (getitem l i).
Proof.
  unfold getitem. destruct (l !! i); [apply read_only_ret | apply read_only_raise].
Qed.

Lemma read_only_divide {S F} `{PyFloat F} (x y : F) :
  read_only (S:=S) (divide x y).
Proof.
  unfold divide. destruct (fdiv x y); [apply read_only_ret | apply read_only_raise].
Qed.

Create HintDb read_only.
#[export] Hint Resolve read_only_ret read_only_raise read_only_lift
  read_only_gets read_only_getitem read_only_divide : read_only.

(** A read-only computation is determined by its outcome. *)
Lemma read_only_run {S A} (m : St S A) (s : S) :
  read_only m -> m s = (fst (m s), s).
Proof. intros Hm. specialize (Hm s). destruct (m s); simpl in *. congruence. Qed.

Section Evaluation.
Context {F : Type} `{PyFloat F}.
Variable WHERE_EPSILON : F.

#[local] Abbreviation Self := (CompositeParamScheduler F).

(** *** One-step equations of the embedding *)

Lemma while_loop_unfold fuel where_ i running_total (self : Self) :
  while_loop WHERE_EPSILON fuel where_ i running_total self =
  if loop_test WHERE_EPSILON self where_ i running_total then
    match fuel with
    | O => (OutOfFuel, self)
    | S fuel' =>
        match _lengths self !! S i with
        | Some length_i =>
            while_loop WHERE_EPSILON fuel' where_ (S i)
              (fadd running_total length_i) self
        | None => (Raise IndexError, self)
        end
    end
  else (Return (i, running_total), self).
Proof.
  unfold loop_test.
  destruct fuel; simpl; unfold bind, gets, ret, lift; simpl;
    destruct (fgtb _ _ && _); try reflexivity.
  unfold getitem, ret, raise. destruct (_lengths self !! S i); reflexivity.
Qed.

Lemma select_unfold where_ (self : Self) :
  select WHERE_EPSILON where_ self =
  match _lengths self !! O with
  | Some running_total =>
      while_loop WHERE_EPSILON (length (_schedulers self)) where_ O
        running_total self
  | None => (Raise IndexError, self)
  end.
Proof.
  unfold select, bind, gets, getitem, ret, raise; simpl.
  destruct (_lengths self !! O); reflexivity.
Qed.

Lemma delegate_unfold where_ i running_total (self : Self) :
  delegate where_ i running_total self =
  match _schedulers self !! i with
  | None => (Raise IndexError, self)
  | Some scheduler =>
      match _interval_scaling self !! i with
      | None => (Raise IndexError, self)
      | Some FIXED => (scheduler where_, self)
      | Some RESCALED =>
          match _lengths self !! i with
          | None => (Raise IndexError, self)
          | Some length_i =>
              match fdiv (fsub where_ (fsub running_total length_i)) length_i with
              | Some scheduler_where => (scheduler scheduler_where, self)
              | None => (Raise ZeroDivisionError, self)
              end
          end
      end
  end.
Proof.
  unfold delegate, bind, gets, getitem, divide, ret, raise, lift; simpl.
  destruct (_schedulers self !! i); [| reflexivity].
  destruct (_interval_scaling self !! i) as [[|] |]; try reflexivity.
  destruct (_lengths self !! i); [| reflexivity].
  destruct (fdiv _ _); reflexivity.
Qed.

(** *** [__call__] only reads [self] *)

Lemma while_loop_read_only fuel where_ :
  forall i running_total,
    read_only (while_loop WHERE_EPSILON fuel where_ i running_total).
Proof.
  induction fuel as [| fuel IH]; intros i running_total; simpl;
    apply read_only_bind; auto with read_only; intros schedulers;
    destruct (fgtb _ _ && _); auto with read_only.
  apply read_only_bind; auto with read_only; intros lengths.
  apply read_only_bind; auto with read_only.
Qed.

Lemma select_read_only where_ : read_only (select WHERE_EPSILON where_).
Proof.
  unfold select. repeat (apply read_only_bind; auto with read_only; intros).
  apply while_loop_read_only.
Qed.

Lemma delegate_read_only where_ i running_total :
  read_only (delegate (F:=F) where_ i running_total).
Proof.
  unfold delegate. repeat (apply read_only_bind; auto with read_only; intros).
  match goal with x : IntervalScaling |- _ => destruct x end;
    repeat (apply read_only_bind; auto with read_only; intros);
    auto with read_only.
Qed.

Lemma call_read_only where_ : read_only (__call__ WHERE_EPSILON where_).
Proof.
  unfold __call__. apply read_only_bind; [apply select_read_only |].
  intros [i running_total]. apply delegate_read_only.
Qed.

(** The outcome of [__call__] from the outcome of the selection. *)
Lemma call_unfold where_ (self : Self) :
  fst (__call__ WHERE_EPSILON where_ self) =
  match fst (select WHERE_EPSILON where_ self) with
  | Return (i, running_total) => fst (delegate where_ i running_total self)
  | Raise e => Raise e
  | OutOfFuel => OutOfFuel
  end.
Proof.
  unfold __call__, bind.
  rewrite (read_only_run _ self (select_read_only where_)).
  destruct (fst (select WHERE_EPSILON where_ self)) as [[i rt] | e |];
    reflexivity.
Qed.

End Evaluation.

(** ** Frame and independence properties, for any float arithmetic *)

Section Frame.
Context {F : Type} `{PyFloat F}.
Variable WHERE_EPSILON : F.

#[local] Abbreviation Self := (CompositeParamScheduler F).

Lemma after_calls_id (wheres : list F) (self : Self) :
  after_calls WHERE_EPSILON wheres self = self.
Proof.
  induction wheres as [| where_ rest IH]; simpl; [reflexivity |].
  rewrite (call_read_only WHERE_EPSILON where_ self). exact IH.
Qed.

(** The outcome of the loop is a function of the three lists. *)
Lemma while_loop_fields (c1 c2 : Self) fuel where_ :
  _schedulers c1 = _schedulers c2 ->
  _lengths c1 = _lengths c2 ->
  forall i running_total,
    fst (while_loop WHERE_EPSILON fuel where_ i running_total c1) =
    fst (while_loop WHERE_EPSILON fuel where_ i running_total c2).
Proof.
  intros Hs Hl.
  induction fuel as [| fuel IH]; intros i running_total;
    rewrite !while_loop_unfold; unfold loop_test; rewrite ?Hs, ?Hl;
    destruct (fgtb _ _ && _); try reflexivity.
  destruct (_lengths c2 !! S i); [apply IH | reflexivity].
Qed.

Lemma call_fields (c1 c2 : Self) where_ :
  _schedulers c1 = _schedulers c2 ->
  _lengths c1 = _lengths c2 ->
  _interval_scaling c1 = _interval_scaling c2 ->
  fst (__call__ WHERE_EPSILON where_ c1) =
  fst (__call__ WHERE_EPSILON where_ c2).
Proof.
  intros Hs Hl Hi. rewrite !call_unfold, !select_unfold, Hl, Hs.
  destruct (_lengths c2 !! O) as [running_total |]; [| reflexivity].
  rewrite (while_loop_fields c1 c2) by assumption.
  destruct (fst (while_loop _ _ _ _ _ c2)) as [[i rt] | e |]; try reflexivity.
  rewrite !delegate_unfold, Hs, Hl, Hi.
  destruct (_schedulers c2 !! i); [| reflexivity].
  destruct (_interval_scaling c2 !! i) as [[|] |]; try reflexivity.
  destruct (_lengths c2 !! i); [| reflexivity].
  destruct (fdiv _ _); reflexivity.
Qed.

(** C7. Evaluation never mutates the composite: after any sequence of
    calls of [__call__] the object is the one it was, so its update
    cadence, lengths, schedulers and scaling modes are unchanged, and a
    call with the same [where] has the same outcome as the first time. *)
Theorem call_never_mutates (self : Self) (wheres : list F) (where_ : F) :
  let after := after_calls WHERE_EPSILON (where_ :: wheres) self in
  after = self
  /\ update_interval after = update_interval self
  /\ _lengths after = _lengths self
  /\ _schedulers after = _schedulers self
  /\ _interval_scaling after = _interval_scaling self
  /\ snd (__call__ WHERE_EPSILON where_ self) = self
  /\ fst (__call__ WHERE_EPSILON where_ after) =
     fst (__call__ WHERE_EPSILON where_ self).
Proof.
  intros after. unfold after. rewrite after_calls_id.
  repeat split; try reflexivity. apply call_read_only.
Qed.

(** C8. The update cadence has no influence on evaluation: two composites
    built from the same schedulers, lengths and scaling modes, one with
    each cadence, give the same outcome at every progress value. *)
Theorem update_interval_not_used
    (schedulers : list (ClassyParamScheduler F)) (lengths : list F)
    (interval_scaling : list IntervalScaling)
    (cadence cadence' : UpdateInterval) (where_ : F) :
  fst (__call__ WHERE_EPSILON where_
         (__init__ schedulers lengths cadence interval_scaling)) =
  fst (__call__ WHERE_EPSILON where_
         (__init__ schedulers lengths cadence' interval_scaling)).
Proof. apply call_fields; reflexivity. Qed.

(** C5. When the selected segment is FIXED, the sub-scheduler is called on
    [where] itself and its outcome is the outcome of [__call__]. *)
Theorem fixed_passes_where_unchanged (self : Self) (where_ : F) (i : nat)
    (running_total : F) (scheduler : ClassyParamScheduler F) :
  fst (select WHERE_EPSILON where_ self) = Return (i, running_total) ->
  _interval_scaling self !! i = Some FIXED ->
  _schedulers self !! i = Some scheduler ->
  fst (__call__ WHERE_EPSILON where_ self) = scheduler where_.
Proof.
  intros Hsel Hmode Hsch.
  rewrite call_unfold, Hsel. cbn beta iota.
  rewrite delegate_unfold. unfold ClassyParamScheduler in *.
  rewrite Hsch, Hmode. reflexivity.
Qed.

End Frame.

(** ** The selection loop, for any float arithmetic *)

Section Selection.
Context {F : Type} `{PyFloat F}.
Variable WHERE_EPSILON : F.

#[local] Abbreviation Self := (CompositeParamScheduler F).

(** From an index in range the loop ends, at an index in range, and
    without an exception. *)
Lemma while_loop_terminates (self : Self) (where_ : F) :
  length (_lengths self) = length (_schedulers self) ->
  forall fuel i running_total,
    (i < length (_schedulers self))%nat ->
    (length (_schedulers self) - 1 - i <= fuel)%nat ->
    exists j running_total',
      while_loop WHERE_EPSILON fuel where_ i running_total self
      = (Return (j, running_total'), self)
      /\ (i <= j < length (_schedulers self))%nat.
Proof.
  intros Hlen. induction fuel as [| fuel IH]; intros i rt Hi Hfuel;
    rewrite while_loop_unfold; unfold loop_test;
    destruct (fgtb _ _) eqn:Hgt; simpl;
    try (exists i, rt; split; [reflexivity | lia]);
    destruct (Z.ltb_spec (Z.of_nat i) (Z.of_nat (length (_schedulers self)) - 1))
      as [Hlt | Hge];
    try (exists i, rt; split; [reflexivity | lia]).
  - lia.
  - destruct (lookup_lt_is_Some_2 (_lengths self) (S i)) as [length_i Hl];
      [lia |].
    rewrite Hl.
    destruct (IH (S i) (fadd rt length_i)) as (j & rt' & Hrun & Hj);
      [lia | lia |].
    exists j, rt'. split; [exact Hrun | lia].
Qed.

(** The loop ends where its test is false. *)
Lemma while_loop_stops (self self' : Self) (where_ : F) :
  forall fuel i running_total k running_total',
    while_loop WHERE_EPSILON fuel where_ i running_total self
    = (Return (k, running_total'), self') ->
    loop_test WHERE_EPSILON self where_ k running_total' = false
    /\ (i <= k)%nat.
Proof.
  induction fuel as [| fuel IH]; intros i rt k rt';
    rewrite while_loop_unfold;
    destruct (loop_test WHERE_EPSILON self where_ i rt) eqn:Htest;
    intros Hrun; try discriminate;
    try (injection Hrun as <- <- _; split; [exact Htest | lia]).
  destruct (_lengths self !! S i) as [length_i |]; [| discriminate].
  apply IH in Hrun. destruct Hrun as [Hstop Hle]. split; [exact Hstop | lia].
Qed.

(** Started on a boundary, the loop ends on the boundary of the selected
    segment. *)
Lemma while_loop_boundary (self self' : Self) (where_ : F) :
  forall fuel i k running_total,
    while_loop WHERE_EPSILON fuel where_ i (boundary (_lengths self) i) self
    = (Return (k, running_total), self') ->
    running_total = boundary (_lengths self) k.
Proof.
  induction fuel as [| fuel IH]; intros i k rt;
    rewrite while_loop_unfold;
    destruct (loop_test _ _ _ _ _); intros Hrun; try discriminate;
    try (injection Hrun as <- <- _; reflexivity).
  destruct (_lengths self !! S i) as [length_i |] eqn:Hl; [| discriminate].
  apply (IH (S i)). cbn [boundary]. rewrite (nth_lookup_Some _ _ _ _ Hl).
  exact Hrun.
Qed.

Lemma select_run (self : Self) (where_ : F) (i : nat) (running_total : F) :
  fst (select WHERE_EPSILON where_ self) = Return (i, running_total) ->
  exists length_0,
    _lengths self !! O = Some length_0
    /\ while_loop WHERE_EPSILON (length (_schedulers self)) where_ O
         (boundary (_lengths self) O) self
       = (Return (i, running_total), self).
Proof.
  intros Hfst.
  pose proof (read_only_run _ self (select_read_only WHERE_EPSILON where_))
    as Hrun.
  rewrite Hfst, select_unfold in Hrun.
  destruct (_lengths self !! O) as [length_0 |] eqn:Hl; [| discriminate].
  exists length_0. split; [reflexivity |].
  cbn [boundary]. rewrite (nth_lookup_Some _ _ _ _ Hl). exact Hrun.
Qed.

(** What the selection leaves behind: the boundary of the selected
    segment, at an index where the loop test is false. *)
Lemma select_boundary (self : Self) (where_ : F) (i : nat) (running_total : F) :
  fst (select WHERE_EPSILON where_ self) = Return (i, running_total) ->
  running_total = boundary (_lengths self) i
  /\ loop_test WHERE_EPSILON self where_ i running_total = false.
Proof.
  intros Hfst. destruct (select_run _ _ _ _ Hfst) as (length_0 & _ & Hrun).
  split.
  - exact (while_loop_boundary _ _ _ _ _ _ _ Hrun).
  - exact (proj1 (while_loop_stops _ _ _ _ _ _ _ _ Hrun)).
Qed.

(** The selection ends, at an index in range. *)
Lemma select_terminates (self : Self) (where_ : F) :
  well_formed self ->
  exists i running_total,
    fst (select WHERE_EPSILON where_ self) = Return (i, running_total)
    /\ (i < length (_schedulers self))%nat.
Proof.
  intros (Hlen & _ & Hpos). rewrite select_unfold.
  destruct (lookup_lt_is_Some_2 (_lengths self) O) as [length_0 Hl]; [lia |].
  rewrite Hl.
  destruct (while_loop_terminates self where_ Hlen
              (length (_schedulers self)) O length_0)
    as (i & rt & Hrun & Hi); [lia | lia |].
  exists i, rt. rewrite Hrun. split; [reflexivity | lia].
Qed.

Lemma selects_unique (self : Self) (where_ : F) (i j : nat) :
  selects WHERE_EPSILON self where_ i ->
  selects WHERE_EPSILON self where_ j -> i = j.
Proof. intros [rt Hi] [rt' Hj]. congruence. Qed.

(** The fuel that [select] gives the loop is never exhausted, on any
    object. *)
Lemma while_loop_fuel (self : Self) (where_ : F) :
  forall fuel i running_total,
    (length (_schedulers self) - 1 - i <= fuel)%nat ->
    fst (while_loop WHERE_EPSILON fuel where_ i running_total self)
    <> OutOfFuel.
Proof.
  induction fuel as [| fuel IH]; intros i rt Hfuel;
    rewrite while_loop_unfold; unfold loop_test;
    destruct (fgtb _ _); simpl; try discriminate;
    destruct (Z.ltb_spec (Z.of_nat i) (Z.of_nat (length (_schedulers self)) - 1))
      as [Hlt | Hge]; try discriminate.
  - lia.
  - destruct (_lengths self !! S i); [apply IH; lia | discriminate].
Qed.

Lemma select_fuel (self : Self) (where_ : F) :
  fst (select WHERE_EPSILON where_ self) <> OutOfFuel.
Proof.
  rewrite select_unfold. destruct (_lengths self !! O); [| discriminate].
  apply while_loop_fuel. lia.
Qed.

End Selection.

(** ** Selection and delegation in exact arithmetic *)

Lemma Qltb_lt (x y : Q) : Qltb x y = true <-> (x < y)%Q.
Proof.
  unfold Qltb. rewrite negb_true_iff, <- not_true_iff_false, Qle_bool_iff.
  split; [apply Qnot_le_lt | apply Qlt_not_le].
Qed.

Lemma Qltb_ge (x y : Q) : Qltb x y = false <-> (y <= x)%Q.
Proof. unfold Qltb. rewrite negb_false_iff. apply Qle_bool_iff. Qed.

Section Exact.
Local Open Scope Q_scope.
Variable WHERE_EPSILON : Q.

#[local] Abbreviation Self := (CompositeParamScheduler Q).

Lemma loop_test_exact (self : Self) (where_ : Q) (i : nat) (running_total : Q) :
  loop_test WHERE_EPSILON self where_ i running_total =
  Qltb running_total (where_ + WHERE_EPSILON)
  && (Z.of_nat i <? Z.of_nat (length (_schedulers self)) - 1)%Z.
Proof. reflexivity. Qed.

Lemma sum_snoc (l : list Q) (x : Q) : sum (l ++ [x]) = sum l + x.
Proof. unfold sum. rewrite fold_left_app. reflexivity. Qed.

(** The loop runs to the first index [k] at which it may stop, when every
    boundary before [k] lies below [where + WHERE_EPSILON]. *)
Lemma while_loop_reaches (self : Self) (where_ : Q) (k : nat) :
  length (_lengths self) = length (_schedulers self) ->
  (k < length (_schedulers self))%nat ->
  (forall j, (j < k)%nat ->
     boundary (_lengths self) j < where_ + WHERE_EPSILON) ->
  (k = (length (_schedulers self) - 1)%nat
   \/ where_ + WHERE_EPSILON <= boundary (_lengths self) k) ->
  forall fuel i, (i <= k)%nat -> (k - i <= fuel)%nat ->
    while_loop WHERE_EPSILON fuel where_ i (boundary (_lengths self) i) self
    = (Return (k, boundary (_lengths self) k), self).
Proof.
  intros Hlen Hk Hbefore Hstop.
  induction fuel as [| fuel IH]; intros i Hik Hfuel;
    rewrite while_loop_unfold, loop_test_exact.
  - assert (i = k) by lia. subst i.
    replace (Qltb _ _ && _) with false; [reflexivity |].
    symmetry. apply andb_false_iff. destruct Hstop as [Hlast | Hle].
    + right. apply Z.ltb_ge. lia.
    + left. apply Qltb_ge. exact Hle.
  - destruct (decide (i = k)) as [-> | Hne].
    + replace (Qltb _ _ && _) with false; [reflexivity |].
      symmetry. apply andb_false_iff. destruct Hstop as [Hlast | Hle].
      * right. apply Z.ltb_ge. lia.
      * left. apply Qltb_ge. exact Hle.
    + replace (Qltb _ _ && _) with true.
      * destruct (lookup_lt_is_Some_2 (_lengths self) (S i)) as [x Hx];
          [lia |].
        rewrite Hx, <- (nth_lookup_Some _ _ 0 _ Hx).
        apply (IH (S i)); lia.
      * symmetry. apply andb_true_iff. split.
        -- apply Qltb_lt, Hbefore. lia.
        -- apply Z.ltb_lt. lia.
Qed.

Lemma select_reaches (self : Self) (where_ : Q) (k : nat) :
  well_formed self ->
  (k < length (_schedulers self))%nat ->
  (forall j, (j < k)%nat ->
     boundary (_lengths self) j < where_ + WHERE_EPSILON) ->
  (k = (length (_schedulers self) - 1)%nat
   \/ where_ + WHERE_EPSILON <= boundary (_lengths self) k) ->
  fst (select WHERE_EPSILON where_ self)
  = Return (k, boundary (_lengths self) k).
Proof.
  intros (Hlen & _ & Hpos) Hk Hbefore Hstop. rewrite select_unfold.
  destruct (lookup_lt_is_Some_2 (_lengths self) O) as [x Hx]; [lia |].
  rewrite Hx, <- (nth_lookup_Some _ _ 0 _ Hx).
  change (nth O (_lengths self) 0) with (boundary (_lengths self) O).
  rewrite (while_loop_reaches self where_ k Hlen Hk Hbefore Hstop); [| lia..].
  reflexivity.
Qed.

End Exact.

(** ** Theorems on selection and delegation *)

Section SelectionExact.
Local Open Scope Q_scope.
Variable WHERE_EPSILON : Q.

#[local] Abbreviation Self := (CompositeParamScheduler Q).

(** In a well-formed composite with positive lengths, the delegation at an
    index in range calls the sub-scheduler of that index, on [where] or on
    the rescaled progress, and raises nothing of its own. *)
Lemma delegate_in_range (self : Self) (where_ : Q) (i : nat) (running_total : Q) :
  well_formed self -> positive_lengths self ->
  (i < length (_schedulers self))%nat ->
  exists scheduler mode length_i,
    _schedulers self !! i = Some scheduler
    /\ _interval_scaling self !! i = Some mode
    /\ _lengths self !! i = Some length_i
    /\ 0 < length_i
    /\ fst (delegate where_ i running_total self) =
       scheduler match mode with
                 | FIXED => where_
                 | RESCALED =>
                     (where_ - (running_total - length_i)) / length_i
                 end.
Proof.
  intros (Hlen & Hmodes & _) Hpos Hi.
  destruct (lookup_lt_is_Some_2 (_schedulers self) i) as [scheduler Hs];
    [lia |].
  destruct (lookup_lt_is_Some_2 (_interval_scaling self) i) as [mode Hm];
    [lia |].
  destruct (lookup_lt_is_Some_2 (_lengths self) i) as [length_i Hl]; [lia |].
  assert (Hli : 0 < length_i) by exact (Forall_lookup_1 _ _ _ _ Hpos Hl).
  exists scheduler, mode, length_i. repeat split; try assumption.
  rewrite delegate_unfold. unfold ClassyParamScheduler in *.
  rewrite Hs, Hm. destruct mode; [| reflexivity].
  rewrite Hl. cbn [fdiv fsub Q_float].
  destruct (Qeq_bool length_i 0) eqn:Hz; [| reflexivity].
  apply Qeq_bool_iff in Hz. lra.
Qed.

(** C6, as the code has it. In a well-formed composite with positive
    lengths, [where = 0.0] selects the first segment exactly when the first
    length is at least [WHERE_EPSILON] or there is a single segment; the
    first sub-scheduler is then called, on local progress [0]. *)
Theorem zero_selects_first (self : Self) :
  well_formed self -> positive_lengths self ->
  (selects WHERE_EPSILON self 0 O
   <-> WHERE_EPSILON <= nth O (_lengths self) 0
       \/ length (_schedulers self) = 1%nat)
  /\ (selects WHERE_EPSILON self 0 O ->
      exists scheduler local_where,
        _schedulers self !! O = Some scheduler
        /\ fst (__call__ WHERE_EPSILON 0 self) = scheduler local_where
        /\ local_where == 0).
Proof.
  intros Hwf Hpos. pose proof Hwf as (Hlen & Hmodes & Hn). split.
  - split.
    + intros [rt Hsel]. destruct (select_boundary _ _ _ _ _ Hsel) as [Hrt Htest].
      rewrite loop_test_exact in Htest. apply andb_false_iff in Htest.
      destruct Htest as [Hge | Hlast].
      * left. apply Qltb_ge in Hge. rewrite Hrt in Hge. simpl in Hge. lra.
      * right. apply Z.ltb_ge in Hlast. lia.
    + intros Hstop. exists (boundary (_lengths self) O).
      apply select_reaches; try assumption.
      * intros j Hj. lia.
      * destruct Hstop as [Hle | Hone]; [right | left; lia].
        simpl. lra.
  - intros [rt Hsel]. destruct (select_boundary _ _ _ _ _ Hsel) as [Hrt _].
    destruct (delegate_in_range self 0 O rt Hwf Hpos Hn)
      as (scheduler & mode & length_0 & Hs & Hm & Hl & Hli & Hrun).
    exists scheduler. eexists. split; [exact Hs |]. split.
    + rewrite call_unfold, Hsel. cbn beta iota. exact Hrun.
    + destruct mode; [| reflexivity].
      rewrite Hrt. simpl. rewrite (nth_lookup_Some _ _ _ _ Hl). field. lra.
Qed.

End SelectionExact.

(** ** The scenarios, run *)

Section Runs.
Import Scenario.
Local Open Scope Q_scope.

Lemma three_way_well_formed : well_formed three_way /\ positive_lengths three_way.
Proof.
  split; [unfold well_formed; simpl; lia |].
  unfold positive_lengths; simpl. repeat constructor.
Qed.

Lemma short_first_well_formed :
  well_formed short_first /\ positive_lengths short_first
  /\ sum (_lengths short_first) == 1.
Proof.
  split; [unfold well_formed; simpl; lia |].
  split; [unfold positive_lengths; simpl; repeat constructor |].
  vm_compute. reflexivity.
Qed.


(** Scenario B of the spec: with lengths [[0.5, 0.5]], both fixed, the
    second sub-scheduler receives [0.6] at [where = 0.6]. *)
Lemma two_fixed_second_receives_where :
  fst (__call__ epsilon 0.6 two_fixed) = Return 0.6.
Proof.
  apply (fixed_passes_where_unchanged epsilon two_fixed 0.6 1 (0.5 + 0.5) echo);
    reflexivity.
Defined.

(** On [three_way], [where = 0.0] selects the first segment. *)
Lemma three_way_zero_selects_first :
  epsilon <= nth 0 (_lengths three_way) 0
  /\ selects epsilon three_way 0 0.
Proof.
  assert (Hle : epsilon <= nth 0 (_lengths three_way) 0)
    by (vm_compute; discriminate).
  split; [exact Hle |].
  apply (zero_selects_first epsilon three_way);
    [apply three_way_well_formed | apply three_way_well_formed |].
  left. exact Hle.
Defined.

(** C6 fails as stated: [short_first] is well formed, its lengths are
    positive and sum to [1.0], and [where = 0.0] selects segment 1, not
    the first segment, which is shorter than the epsilon.  The same run in
    binary64 selects segment 1 as well. *)
Lemma short_first_zero_skips_first :
  well_formed short_first /\ positive_lengths short_first
  /\ sum (_lengths short_first) == 1
  /\ selects epsilon short_first 0 1
  /\ ~ selects epsilon short_first 0 0
  /\ selects epsilon_binary64 short_first_binary64 0%float 1.
Proof.
  split; [apply short_first_well_formed |].
  split; [apply short_first_well_formed |].
  split; [apply short_first_well_formed |].
  split; [eexists; vm_compute; reflexivity |].
  split; [intros [rt Hsel]; vm_compute in Hsel; discriminate |].
  eexists; vm_compute; reflexivity.
Qed.

(** C9 fails as stated in its last clause: on [short_first] (well formed,
    positive lengths that sum to [1.0]) the negative [where = -1e-7]
    selects segment 1, not the first segment.  The same run in binary64
    selects segment 1 as well. *)
Lemma short_first_negative_where_skips_first :
  well_formed short_first /\ positive_lengths short_first
  /\ sum (_lengths short_first) == 1
  /\ -1e-7 < 0
  /\ selects epsilon short_first (-1e-7) 1
  /\ ~ selects epsilon short_first (-1e-7) 0
  /\ selects epsilon_binary64 short_first_binary64 (-1e-7)%float 1.
Proof.
  split; [apply short_first_well_formed |].
  split; [apply short_first_well_formed |].
  split; [apply short_first_well_formed |].
  split; [reflexivity |].
  split; [eexists; vm_compute; reflexivity |].
  split; [intros [rt Hsel]; vm_compute in Hsel; discriminate |].
  eexists; vm_compute; reflexivity.
Qed.

End Runs.

(** ** [from_config], block by block *)

Lemma in_set_cadence (name : string) :
  in_set name {[ "step"; "epoch" ]}
  = match cadence_of_string name with Some _ => true | None => false end.
Proof.
  unfold in_set, cadence_of_string.
  destruct (String.eqb_spec name "step") as [-> | Hstep]; [reflexivity |].
  destruct (String.eqb_spec name "epoch") as [-> | Hepoch]; [reflexivity |].
  apply bool_decide_eq_false.
  intros [Hin | Hin]%elem_of_union; apply elem_of_singleton in Hin; congruence.
Qed.

Lemma in_set_scaling (name : string) :
  in_set name {[ "fixed"; "rescaled" ]}
  = match scaling_of_string name with Some _ => true | None => false end.
Proof.
  unfold in_set, scaling_of_string.
  destruct (String.eqb_spec name "fixed") as [-> | Hfixed]; [reflexivity |].
  destruct (String.eqb_spec name "rescaled") as [-> | Hrescaled];
    [reflexivity |].
  apply bool_decide_eq_false.
  intros [Hin | Hin]%elem_of_union; apply elem_of_singleton in Hin; congruence.
Qed.

Lemma UpdateInterval_getitem_upper {S} (name : string) (member : UpdateInterval) :
  cadence_of_string name = Some member ->
  UpdateInterval_getitem (S:=S) (upper name) = ret member.
Proof.
  unfold cadence_of_string.
  destruct (String.eqb_spec name "step") as [-> | _];
    [intros Hm; injection Hm as <-; reflexivity |].
  destruct (String.eqb_spec name "epoch") as [-> | _];
    [intros Hm; injection Hm as <-; reflexivity | discriminate].
Qed.

Lemma IntervalScaling_getitem_upper {S} (name : string) (member : IntervalScaling) :
  scaling_of_string name = Some member ->
  IntervalScaling_getitem (S:=S) (upper name) = ret member.
Proof.
  unfold scaling_of_string.
  destruct (String.eqb_spec name "fixed") as [-> | _];
    [intros Hm; injection Hm as <-; reflexivity |].
  destruct (String.eqb_spec name "rescaled") as [-> | _];
    [intros Hm; injection Hm as <-; reflexivity | discriminate].
Qed.

Section Construction.
Context {F : Type} `{PyFloat F}.
Variable build_param_scheduler :
  SubConfig F -> outcome (ClassyParamScheduler F).

#[local] Abbreviation Conf := (Config F).

Lemma validate_run (config : Conf) :
  validate config =
  match config_schedulers config, config_lengths config with
  | Some schedulers, Some lengths =>
      if (length schedulers =? length lengths)%nat then
        if (0 <? length schedulers)%nat then
          if within_tolerance lengths then (Return tt, config)
          else (Raise (AssertionError
                         "The sum of all values in lengths must be 1"),
                config)
        else (Raise (AssertionError
                       "There must be at least one scheduler in the composite scheduler"),
              config)
      else (Raise (AssertionError
                     "Schedulers and lengths must be same length"),
            config)
  | _, _ =>
      (Raise (AssertionError
                "Composite scheduler needs both a list of schedulers and lengths"),
       config)
  end.
Proof.
  unfold validate, contains, item, assert, within_tolerance.
  unfold bind, gets, ret, raise; simpl.
  destruct (config_schedulers config) as [schedulers |] eqn:Hs;
    destruct (config_lengths config) as [lengths |] eqn:Hl; simpl;
    try reflexivity.
  rewrite Hs, Hl.
  destruct (length schedulers =? length lengths)%nat; [| reflexivity].
  rewrite Hs. destruct (0 <? length schedulers)%nat; [| reflexivity].
  rewrite Hl. destruct (fltb _ _); reflexivity.
Qed.

Lemma close_lengths_run (config : Conf) (lengths : list F) :
  config_lengths config = Some lengths ->
  (0 < length lengths)%nat ->
  close_lengths config =
  (Return tt,
   if fneb (sum lengths) lit_1_0 then
     store_lengths (closed_lengths lengths) config
   else config).
Proof.
  intros Hl Hlen.
  unfold close_lengths, closed_lengths, item, setitem_last.
  unfold bind, gets, ret, raise, lift, modify; simpl.
  rewrite Hl. destruct (fneb _ _); [| reflexivity].
  rewrite Hl. destruct lengths; [simpl in Hlen; lia |].
  rewrite Hl. reflexivity.
Qed.

Lemma read_update_interval_run (config : Conf) :
  read_update_interval config =
  match config_update_interval config with
  | None => (Return STEP, config)
  | Some name =>
      match cadence_of_string name with
      | Some member => (Return member, config)
      | None =>
          (Raise (AssertionError
                    "Choices for update interval are 'step' or 'epoch'"),
           config)
      end
  end.
Proof.
  unfold read_update_interval, contains, item, assert.
  unfold bind, gets, ret, raise; simpl.
  destruct (config_update_interval config) as [name |] eqn:Hu;
    [| reflexivity].
  rewrite Hu, in_set_cadence.
  destruct (cadence_of_string name) as [member |] eqn:Hname; [| reflexivity].
  rewrite Hu, (UpdateInterval_getitem_upper name member Hname).
  reflexivity.
Qed.

Lemma for_interval_scale_run (config : Conf) (scales : list string) :
  forall interval_scaling,
    for_interval_scale scales interval_scaling config =
    match mapM scaling_of_string scales with
    | Some members => (Return (interval_scaling ++ members), config)
    | None =>
        (Raise (AssertionError
                  "Choices for interval scaline are 'fixed' or 'rescaled'"),
         config)
    end.
Proof.
  induction scales as [| name rest IH]; intros interval_scaling; simpl.
  - rewrite app_nil_r. reflexivity.
  - unfold bind, assert. rewrite in_set_scaling.
    destruct (scaling_of_string name) as [member |] eqn:Hname; simpl;
      [| reflexivity].
    rewrite (IntervalScaling_getitem_upper name member Hname). simpl.
    rewrite IH. destruct (mapM scaling_of_string rest) as [members |]; simpl;
      [| reflexivity].
    rewrite <- app_assoc. reflexivity.
Qed.

Lemma read_interval_scaling_run (config : Conf) (schedulers : list (SubConfig F)) :
  config_schedulers config = Some schedulers ->
  read_interval_scaling config =
  match config_interval_scaling config with
  | None => (Return (replicate (length schedulers) RESCALED), config)
  | Some scales =>
      if (length schedulers =? length scales)%nat then
        match mapM scaling_of_string scales with
        | Some members => (Return members, config)
        | None =>
            (Raise (AssertionError
                      "Choices for interval scaline are 'fixed' or 'rescaled'"),
             config)
        end
      else
        (Raise (AssertionError
                  "Schedulers and interval scaling must be the same length"),
         config)
  end.
Proof.
  intros Hs.
  unfold read_interval_scaling, contains, item, assert.
  unfold bind, gets, ret, raise; simpl.
  destruct (config_interval_scaling config) as [scales |] eqn:Hi;
    rewrite Hs; [| reflexivity].
  rewrite Hi. destruct (length schedulers =? length scales)%nat;
    [| reflexivity].
  rewrite Hi, for_interval_scale_run. reflexivity.
Qed.

Lemma propagate_num_epochs_run (config : Conf) (schedulers : list (SubConfig F)) :
  config_schedulers config = Some schedulers ->
  propagate_num_epochs config =
  (Return tt,
   match config_num_epochs config with
   | Some value =>
       store_schedulers (propagated (Some value) schedulers) config
   | None => config
   end).
Proof.
  intros Hs.
  unfold propagate_num_epochs, contains, item.
  unfold bind, gets, ret, raise, modify; simpl.
  destruct (config_num_epochs config) as [value |] eqn:Hn; [| reflexivity].
  rewrite Hs, Hn. reflexivity.
Qed.

Lemma build_all_run (config : Conf) (configs : list (SubConfig F)) :
  build_all build_param_scheduler configs config =
  (build_list build_param_scheduler configs, config).
Proof.
  induction configs as [| scheduler rest IH]; simpl; [reflexivity |].
  unfold bind, lift.
  destruct (build_param_scheduler scheduler); try reflexivity.
  rewrite IH. destruct (build_list build_param_scheduler rest); reflexivity.
Qed.

Lemma construct_run (config : Conf) (schedulers : list (SubConfig F))
    (lengths : list F) cadence scaling :
  config_schedulers config = Some schedulers ->
  config_lengths config = Some lengths ->
  construct build_param_scheduler cadence scaling config =
  (match build_list build_param_scheduler schedulers with
   | Return built => Return (__init__ built lengths cadence scaling)
   | Raise e => Raise e
   | OutOfFuel => OutOfFuel
   end, config).
Proof.
  intros Hs Hl. unfold construct, item. unfold bind, gets, ret, raise; simpl.
  rewrite Hs, build_all_run.
  destruct (build_list build_param_scheduler schedulers); try reflexivity.
  rewrite Hl. reflexivity.
Qed.

End Construction.

(** ** [from_config] as a whole *)

Lemma insert_last {A} (l : list A) (v : A) :
  (0 < length l)%nat -> <[(length l - 1)%nat := v]> l = but_last l ++ [v].
Proof.
  unfold but_last.
  destruct l as [| x l _] using rev_ind; simpl; [lia |]. intros _.
  rewrite length_app; simpl.
  replace (length l + 1 - 1)%nat with (length l) by lia.
  rewrite take_app_length, insert_app_r_alt by lia.
  replace (length l - length l)%nat with O by lia. reflexivity.
Qed.

Section FromConfig.
Context {F : Type} `{PyFloat F}.
Variable build_param_scheduler :
  SubConfig F -> outcome (ClassyParamScheduler F).

#[local] Abbreviation Conf := (Config F).

(** Past the four assertions on the lists, [from_config] is the rest of
    the method run on the dictionary with its lengths closed. *)
Lemma from_config_validated (config : Conf) schedulers lengths :
  config_schedulers config = Some schedulers ->
  config_lengths config = Some lengths ->
  length schedulers = length lengths ->
  (0 < length schedulers)%nat ->
  within_tolerance lengths = true ->
  from_config build_param_scheduler config =
  bind read_update_interval
    (fun cadence =>
       bind read_interval_scaling
         (fun scaling =>
            bind propagate_num_epochs
              (fun _ => construct build_param_scheduler cadence scaling)))
    (config_closed config lengths).
Proof.
  intros Hs Hl Hlen Hn Htol. unfold from_config.
  unfold bind at 1. rewrite validate_run, Hs, Hl, Htol.
  rewrite (proj2 (Nat.eqb_eq _ _) Hlen), (proj2 (Nat.ltb_lt _ _) Hn).
  unfold bind at 1. rewrite (close_lengths_run config lengths Hl) by lia.
  reflexivity.
Qed.

Lemma closed_fields (config : Conf) (lengths : list F) :
  config_lengths config = Some lengths ->
  config_schedulers (config_closed config lengths) = config_schedulers config
  /\ config_lengths (config_closed config lengths) = Some (closed_lengths lengths)
  /\ config_update_interval (config_closed config lengths)
     = config_update_interval config
  /\ config_interval_scaling (config_closed config lengths)
     = config_interval_scaling config
  /\ config_num_epochs (config_closed config lengths) = config_num_epochs config.
Proof.
  intros Hl. unfold config_closed, closed_lengths.
  destruct (fneb _ _); simpl; auto.
Qed.

(** A configuration that passes the assertions is turned into the
    instance described by [built_instance], and the caller's dictionary
    into [config_after]. *)
Lemma from_config_valid (config : Conf) :
  valid_config config ->
  from_config build_param_scheduler config =
  (built_instance build_param_scheduler config, config_after config).
Proof.
  intros (schedulers & lengths & Hs & Hl & Hlen & Hn & Htol & Hcad & Hscal).
  rewrite (from_config_validated config schedulers lengths) by assumption.
  destruct (closed_fields config lengths Hl) as (Hs1 & Hl1 & Hu1 & Hi1 & Hn1).
  rewrite Hs in Hs1.
  set (config1 := config_closed config lengths) in *.
  unfold bind at 1. rewrite read_update_interval_run, Hu1.
  assert (Hread : match config_update_interval config with
                  | Some name =>
                      match cadence_of_string name with
                      | Some member => (Return member, config1)
                      | None =>
                          (Raise (AssertionError
                             "Choices for update interval are 'step' or 'epoch'"),
                           config1)
                      end
                  | None => (Return STEP, config1)
                  end = (Return (cadence_read config), config1)).
  { unfold cadence_read.
    destruct (config_update_interval config) as [name |]; [| reflexivity].
    destruct (Hcad name eq_refl) as [member ->]. reflexivity. }
  rewrite Hread. clear Hread.
  unfold bind at 1.
  rewrite (read_interval_scaling_run config1 schedulers Hs1), Hi1.
  assert (Hread : match config_interval_scaling config with
                  | Some scales =>
                      if (length schedulers =? length scales)%nat then
                        match mapM scaling_of_string scales with
                        | Some members => (Return members, config1)
                        | None =>
                            (Raise (AssertionError
                               "Choices for interval scaline are 'fixed' or 'rescaled'"),
                             config1)
                        end
                      else
                        (Raise (AssertionError
                           "Schedulers and interval scaling must be the same length"),
                         config1)
                  | None =>
                      (Return (replicate (length schedulers) RESCALED),
                       config1)
                  end = (Return (scaling_read config), config1)).
  { unfold scaling_read. rewrite Hs.
    destruct (config_interval_scaling config) as [scales |]; [| reflexivity].
    destruct (Hscal scales eq_refl) as [Hsame [members ->]].
    rewrite (proj2 (Nat.eqb_eq _ _) Hsame). reflexivity. }
  rewrite Hread. clear Hread.
  unfold bind at 1.
  rewrite (propagate_num_epochs_run config1 schedulers Hs1), Hn1.
  set (config2 := match config_num_epochs config with
                  | Some value =>
                      store_schedulers (propagated (Some value) schedulers)
                        config1
                  | None => config1
                  end).
  assert (Hs2 : config_schedulers config2
                = Some (propagated (config_num_epochs config) schedulers)).
  { unfold config2. destruct (config_num_epochs config); [reflexivity |].
    exact Hs1. }
  assert (Hl2 : config_lengths config2 = Some (closed_lengths lengths)).
  { unfold config2. destruct (config_num_epochs config); exact Hl1. }
  rewrite (construct_run build_param_scheduler config2 _ _ _ _ Hs2 Hl2).
  assert (Hafter : config2 = config_after config).
  { unfold config2, config_after, config1, config_closed.
    destruct config as [cs cl cu ci cn]; simpl in *. subst cs cl. simpl.
    unfold closed_lengths.
    destruct (fneb _ _); destruct cn; reflexivity. }
  unfold built_instance. rewrite <- Hafter, Hs2, Hl2. reflexivity.
Qed.

(** Every configuration either passes the assertions or is rejected by
    one of them, for one of the reasons of [violation]. *)
Lemma from_config_checks (config : Conf) :
  valid_config config
  \/ (violation config
      /\ exists msg,
           fst (from_config build_param_scheduler config)
           = Raise (AssertionError msg)).
Proof.
  destruct (config_schedulers config) as [schedulers |] eqn:Hs.
  2: { right. split; [apply missing_schedulers, Hs |].
       unfold from_config, bind. rewrite validate_run, Hs. eauto. }
  destruct (config_lengths config) as [lengths |] eqn:Hl.
  2: { right. split; [apply missing_lengths, Hl |].
       unfold from_config, bind. rewrite validate_run, Hs, Hl. eauto. }
  destruct (Nat.eqb_spec (length schedulers) (length lengths)) as [Hlen | Hlen].
  2: { right. split; [exact (lengths_mismatch _ _ _ Hs Hl Hlen) |].
       unfold from_config, bind. rewrite validate_run, Hs, Hl.
       rewrite (proj2 (Nat.eqb_neq _ _) Hlen). eauto. }
  destruct (Nat.ltb_spec 0 (length schedulers)) as [Hn | Hn].
  2: { right. split.
       - apply no_scheduler. rewrite Hs. f_equal.
         apply nil_length_inv. lia.
       - unfold from_config, bind. rewrite validate_run, Hs, Hl.
         rewrite (proj2 (Nat.eqb_eq _ _) Hlen).
         rewrite (proj2 (Nat.ltb_ge _ _) Hn). eauto. }
  destruct (within_tolerance lengths) eqn:Htol.
  2: { right. split; [exact (sum_out_of_tolerance _ _ Hl Htol) |].
       unfold from_config, bind. rewrite validate_run, Hs, Hl, Htol.
       rewrite (proj2 (Nat.eqb_eq _ _) Hlen).
       rewrite (proj2 (Nat.ltb_lt _ _) Hn). eauto. }
  rewrite (from_config_validated config schedulers lengths) by assumption.
  destruct (closed_fields config lengths Hl) as (Hs1 & Hl1 & Hu1 & Hi1 & Hn1).
  rewrite Hs in Hs1.
  set (config1 := config_closed config lengths) in *.
  assert (Hcad : (forall name, config_update_interval config = Some name ->
                    is_Some (cadence_of_string name))
                 \/ exists name, config_update_interval config = Some name
                                 /\ cadence_of_string name = None).
  { destruct (config_update_interval config) as [name |]; [| left; discriminate].
    destruct (cadence_of_string name) as [member |] eqn:Hname.
    - left. intros name' Heq. injection Heq as <-. rewrite Hname. eauto.
    - right. eauto. }
  destruct Hcad as [Hcad | (name & Hu & Hname)].
  2: { right. split; [exact (unknown_update_interval _ _ Hu Hname) |].
       unfold bind at 1. rewrite read_update_interval_run, Hu1, Hu, Hname.
       eauto. }
  assert (Hscal : (forall scales, config_interval_scaling config = Some scales ->
                     length schedulers = length scales
                     /\ is_Some (mapM scaling_of_string scales))
                  \/ exists scales,
                       config_interval_scaling config = Some scales
                       /\ (length schedulers <> length scales
                           \/ mapM scaling_of_string scales = None)).
  { destruct (config_interval_scaling config) as [scales |];
      [| left; discriminate].
    destruct (Nat.eq_dec (length schedulers) (length scales)) as [Hsame | Hdiff];
      [| right; eauto].
    destruct (mapM scaling_of_string scales) as [members |] eqn:Hm.
    - left. intros scales' Heq. injection Heq as <-. rewrite Hm. eauto.
    - right. eauto. }
  destruct Hscal as [Hscal | (scales & Hi & Hbad)].
  - left. exists schedulers, lengths. auto 10.
  - right. split.
    + destruct Hbad as [Hdiff | Hm];
        [exact (scaling_mismatch _ _ _ Hs Hi Hdiff)
        | exact (unknown_interval_scaling _ _ Hi Hm)].
    + unfold bind at 1. rewrite read_update_interval_run, Hu1.
      destruct (config_update_interval config) as [name |] eqn:Hu.
      * destruct (Hcad name eq_refl) as [member ->].
        unfold bind at 1.
        rewrite (read_interval_scaling_run config1 schedulers Hs1), Hi1, Hi.
        destruct (length schedulers =? length scales)%nat eqn:Hsame;
          [| eauto].
        destruct Hbad as [Hdiff | ->]; [| eauto].
        apply Nat.eqb_eq in Hsame. contradiction.
      * unfold bind at 1.
        rewrite (read_interval_scaling_run config1 schedulers Hs1), Hi1, Hi.
        destruct (length schedulers =? length scales)%nat eqn:Hsame;
          [| eauto].
        destruct Hbad as [Hdiff | ->]; [| eauto].
        apply Nat.eqb_eq in Hsame. contradiction.
Qed.

Lemma valid_config_no_violation (config : Conf) :
  valid_config config -> ~ violation config.
Proof.
  intros (schedulers & lengths & Hs & Hl & Hlen & Hn & Htol & Hcad & Hscal)
    Hbad.
  destruct Hbad as [Hs' | Hl' | ss ls Hs' Hl' Hdiff | Hs' | ls Hl' Htol'
                    | name Hu Hname | ss scales Hs' Hi Hdiff | scales Hi Hm];
    try congruence.
  - rewrite Hs in Hs'. injection Hs' as ->. simpl in Hn. lia.
  - destruct (Hcad name Hu) as [member Hmember]. congruence.
  - destruct (Hscal scales Hi) as [Hsame _]. congruence.
  - destruct (Hscal scales Hi) as [_ [members Hmembers]]. congruence.
Qed.

Lemma build_list_total (configs : list (SubConfig F)) :
  (forall config, exists built, build_param_scheduler config = Return built) ->
  exists built, build_list build_param_scheduler configs = Return built.
Proof.
  intros Htotal. induction configs as [| config rest [others IH]]; simpl;
    [eauto |].
  destruct (Htotal config) as [built ->]. rewrite IH. eauto.
Qed.

(** C2, as the code has it. Construction is ended by a failed assertion
    exactly for the configurations of [violation]: a missing
    ["schedulers"] or ["lengths"] key, lists of different lengths, no
    scheduler, a sum that is not within [1e-3] of [1.0], an update
    interval other than "step" or "epoch", or a scaling mode other than
    "fixed" or "rescaled"; no instance is then produced.  Any other
    configuration yields the instance, unless building a sub-scheduler
    fails. *)
Theorem construction_fails_on_violation (config : Conf) :
  (violation config ->
   exists msg,
     fst (from_config build_param_scheduler config)
     = Raise (AssertionError msg))
  /\ (~ violation config ->
      fst (from_config build_param_scheduler config)
      = built_instance build_param_scheduler config)
  /\ ((forall sub, exists built, build_param_scheduler sub = Return built) ->
      (violation config <->
       ~ exists instance,
           fst (from_config build_param_scheduler config) = Return instance)).
Proof.
  destruct (from_config_checks config) as [Hvalid | [Hbad [msg Hmsg]]].
  - pose proof (valid_config_no_violation config Hvalid) as Hok.
    split; [intros Hbad; contradiction |].
    split; [intros _; rewrite from_config_valid by assumption; reflexivity |].
    intros Htotal. split; [intros Hbad; contradiction |].
    intros Hnone. exfalso. apply Hnone.
    rewrite from_config_valid by assumption. cbn [fst].
    unfold built_instance.
    destruct (build_list_total
                (default [] (config_schedulers (config_after config))) Htotal)
      as [built ->].
    eauto.
  - split; [intros _; eauto |].
    split; [intros Hok; contradiction |].
    intros _. split; [| intros _; exact Hbad].
    intros _ [instance Hinstance]. congruence.
Qed.

Lemma build_list_length (configs : list (SubConfig F)) built :
  build_list build_param_scheduler configs = Return built ->
  length built = length configs.
Proof.
  revert built. induction configs as [| config rest IH]; intros built; simpl.
  - intros Hbuilt. injection Hbuilt as <-. reflexivity.
  - destruct (build_param_scheduler config); try discriminate.
    destruct (build_list build_param_scheduler rest) as [others | |];
      try discriminate.
    intros Hbuilt. injection Hbuilt as <-. simpl. rewrite (IH others eq_refl).
    reflexivity.
Qed.

(** An instance that [from_config] returns is well formed: its three lists
    have the length of the scheduler list, which is not empty. *)
Lemma from_config_well_formed (config : Conf) instance :
  valid_config config ->
  fst (from_config build_param_scheduler config) = Return instance ->
  well_formed instance.
Proof.
  intros Hvalid. rewrite (from_config_valid config Hvalid). cbn [fst].
  destruct Hvalid as (schedulers & lengths & Hs & Hl & Hlen & Hn & _ & _ & Hscal).
  unfold built_instance, config_after.
  cbn [config_schedulers config_lengths]. rewrite Hs, Hl.
  cbn [fmap option_fmap option_map default from_option id].
  destruct (build_list build_param_scheduler _) as [built | |] eqn:Hbuilt;
    try discriminate.
  intros Hinstance. injection Hinstance as <-.
  apply build_list_length in Hbuilt.
  assert (Hprop : length (propagated (config_num_epochs config) schedulers)
                  = length schedulers).
  { unfold propagated. destruct (config_num_epochs config); [| reflexivity].
    apply length_fmap. }
  assert (Hclosed : length (closed_lengths lengths) = length lengths).
  { unfold closed_lengths. destruct (fneb _ _); [| reflexivity].
    apply length_insert. }
  assert (Hmodes : length (scaling_read config) = length schedulers).
  { unfold scaling_read. rewrite Hs.
    destruct (config_interval_scaling config) as [scales |].
    - destruct (Hscal scales eq_refl) as [Hsame [members Hmembers]].
      rewrite Hmembers. simpl. rewrite <- (length_mapM _ _ _ Hmembers).
      symmetry. exact Hsame.
    - simpl. apply length_replicate. }
  unfold well_formed. cbn [_lengths _schedulers _interval_scaling __init__].
  rewrite Hbuilt, Hprop, Hclosed, Hmodes. repeat split; [symmetry |]; assumption.
Qed.

End FromConfig.

(** ** [from_config] in exact arithmetic *)

Lemma fneb_one (x : Q) : fneb x lit_1_0 = true <-> ~ (x == 1)%Q.
Proof.
  cbn [fneb lit_1_0 Q_float]. rewrite negb_true_iff, <- not_true_iff_false.
  rewrite Qeq_bool_iff. change (1.0%Q) with (10 # 10)%Q.
  assert (Hone : ((10 # 10) == 1)%Q) by reflexivity.
  rewrite Hone. reflexivity.
Qed.

Lemma closed_lengths_sum (lengths : list Q) :
  (0 < length lengths)%nat ->
  ~ (sum lengths == 1)%Q ->
  closed_lengths lengths
  = <[(length lengths - 1)%nat := (1.0 - sum (but_last lengths))%Q]> lengths
  /\ (sum (closed_lengths lengths) == 1)%Q
  /\ closed_lengths lengths <> lengths.
Proof.
  intros Hlen Hsum. unfold closed_lengths.
  rewrite (proj2 (fneb_one (sum lengths)) Hsum).
  split; [reflexivity |].
  assert (Hone : (sum (<[(length lengths - 1)%nat :=
                          fsub lit_1_0 (sum (but_last lengths))]> lengths)
                  == 1)%Q).
  { rewrite insert_last by exact Hlen. rewrite sum_snoc.
    cbn [fsub lit_1_0 Q_float]. change (1.0%Q) with (10 # 10)%Q.
    assert (Hten : ((10 # 10) == 1)%Q) by reflexivity.
    rewrite Hten. ring. }
  split; [exact Hone |].
  intros Heq. rewrite Heq in Hone. contradiction.
Qed.

Lemma closed_lengths_id (lengths : list Q) :
  (sum lengths == 1)%Q -> closed_lengths lengths = lengths.
Proof.
  intros Hsum. unfold closed_lengths.
  destruct (fneb (sum lengths) lit_1_0) eqn:Hne; [| reflexivity].
  apply fneb_one in Hne. contradiction.
Qed.

(** ** The configuration scenarios, run *)

Section ConfigRuns.
Import Scenario.
Local Open Scope Q_scope.

Lemma with_num_epochs_valid : valid_config with_num_epochs.
Proof.
  exists two_sub_configs, [0.3; 0.7001].
  split; [reflexivity |]. split; [reflexivity |]. split; [reflexivity |].
  split; [simpl; lia |]. split; [reflexivity |]. split.
  - intros name Hname. injection Hname as <-. eexists; reflexivity.
  - intros scales Hscales. injection Hscales as <-.
    split; [reflexivity | eexists; reflexivity].
Qed.

(** Scenario D in binary64: the second length is stored as the float [0.7],
    the caller's list holds it too, and the stored lengths sum to [1.0]. *)
Lemma scenario_d_closed_binary64 :
  exists instance,
    from_config build_echo scenario_d_binary64
    = (Return instance,
       store_lengths [0.3; 0.7]%float scenario_d_binary64)
    /\ _lengths instance = [0.3; 0.7]%float
    /\ sum (_lengths instance) = 1.0%float.
Proof. eexists. split; [vm_compute; reflexivity |]. split; reflexivity. Qed.

(** C2 fails as stated: [unknown_cadence] has two schedulers and two
    lengths, no scaling list, and lengths that sum to [1.0], so none of
    the three causes of the claim applies; construction is nevertheless
    ended by an assertion, on the update interval.  The same run in
    binary64 ends in the same assertion. *)
Lemma unknown_cadence_rejected :
  (exists schedulers lengths,
     config_schedulers unknown_cadence = Some schedulers
     /\ config_lengths unknown_cadence = Some lengths
     /\ config_interval_scaling unknown_cadence = None
     /\ length schedulers = length lengths
     /\ schedulers <> []
     /\ Qabs (sum lengths - 1) <= 1e-3)
  /\ fst (from_config build_echo unknown_cadence)
     = Raise (AssertionError
                "Choices for update interval are 'step' or 'epoch'")
  /\ fst (from_config build_echo unknown_cadence_binary64)
     = Raise (AssertionError
                "Choices for update interval are 'step' or 'epoch'").
Proof.
  split.
  - exists two_sub_configs, [0.3; 0.7].
    repeat split; try reflexivity; try discriminate.
  - split; vm_compute; reflexivity.
Qed.

End ConfigRuns.

(** ** More on the selection: which segment, in which order *)

Section SelectionOrder.
Local Open Scope Q_scope.
Variable WHERE_EPSILON : Q.

#[local] Abbreviation Self := (CompositeParamScheduler Q).

(** Among the indices up to [n] there is a first one at which the loop may
    stop. *)
Lemma first_stop_exists (lengths : list Q) (where_ : Q) (n : nat) :
  exists k,
    (k <= n)%nat
    /\ (forall j, (j < k)%nat -> boundary lengths j < where_ + WHERE_EPSILON)
    /\ (k = n \/ where_ + WHERE_EPSILON <= boundary lengths k).
Proof.
  induction n as [| n (k & Hk & Hbefore & Hstop)].
  - exists O. split; [lia |]. split; [intros j Hj; lia | left; reflexivity].
  - destruct Hstop as [-> | Hle].
    + destruct (Qlt_le_dec (boundary lengths n) (where_ + WHERE_EPSILON))
        as [Hlt | Hle].
      * exists (S n). split; [lia |]. split; [| left; reflexivity].
        intros j Hj. destruct (decide (j = n)) as [-> | Hne]; [exact Hlt |].
        apply Hbefore. lia.
      * exists n. split; [lia |]. split; [exact Hbefore | right; exact Hle].
    + exists k. split; [lia |]. split; [exact Hbefore | right; exact Hle].
Qed.

(** The selected index is the first at which the loop may stop. *)
Lemma selects_first_stop (self : Self) (where_ : Q) (k : nat) :
  well_formed self ->
  selects WHERE_EPSILON self where_ k
  <-> (k < length (_schedulers self))%nat
      /\ (forall j, (j < k)%nat ->
            boundary (_lengths self) j < where_ + WHERE_EPSILON)
      /\ (k = (length (_schedulers self) - 1)%nat
          \/ where_ + WHERE_EPSILON <= boundary (_lengths self) k).
Proof.
  intros Hwf. pose proof Hwf as (Hlen & _ & Hn). split.
  - intros Hsel.
    destruct (first_stop_exists (_lengths self) where_
                (length (_schedulers self) - 1))
      as (k' & Hk' & Hbefore & Hstop).
    assert (Hsel' : selects WHERE_EPSILON self where_ k').
    { exists (boundary (_lengths self) k').
      apply select_reaches; try assumption. lia. }
    rewrite (selects_unique _ _ _ _ _ Hsel Hsel').
    split; [lia |]. split; assumption.
  - intros (Hk & Hbefore & Hstop). exists (boundary (_lengths self) k).
    apply select_reaches; assumption.
Qed.

(** X4. Schedulers are run in order: a later progress value never selects
    an earlier segment. *)
Theorem selection_monotone (self : Self) (where_1 where_2 : Q) (i_1 i_2 : nat) :
  well_formed self ->
  where_1 <= where_2 ->
  selects WHERE_EPSILON self where_1 i_1 ->
  selects WHERE_EPSILON self where_2 i_2 ->
  (i_1 <= i_2)%nat.
Proof.
  intros Hwf Hle Hsel1 Hsel2.
  apply (selects_first_stop self where_1 i_1 Hwf) in Hsel1.
  apply (selects_first_stop self where_2 i_2 Hwf) in Hsel2.
  destruct Hsel1 as (Hi1 & Hbefore & _). destruct Hsel2 as (Hi2 & _ & Hstop).
  destruct (le_lt_dec i_1 i_2) as [Hok | Hlt]; [exact Hok | exfalso].
  pose proof (Hbefore i_2 Hlt) as Hpassed.
  destruct Hstop as [Hlast | Hstop]; [lia | lra].
Qed.

(** X6. A selected RESCALED segment of length zero ends [__call__] in
    [ZeroDivisionError]; the sub-scheduler is not called. *)
Theorem zero_length_segment_raises (self : Self) (where_ : Q) (i : nat)
    (running_total length_i : Q) :
  fst (select WHERE_EPSILON where_ self) = Return (i, running_total) ->
  _interval_scaling self !! i = Some RESCALED ->
  is_Some (_schedulers self !! i) ->
  _lengths self !! i = Some length_i ->
  length_i == 0 ->
  fst (__call__ WHERE_EPSILON where_ self) = Raise ZeroDivisionError.
Proof.
  intros Hsel Hmode [scheduler Hsch] Hl Hzero.
  rewrite call_unfold, Hsel. cbn beta iota.
  rewrite delegate_unfold. unfold ClassyParamScheduler in *.
  rewrite Hsch, Hmode, Hl. cbn [fdiv fsub Q_float].
  rewrite (proj2 (Qeq_bool_iff length_i 0) Hzero). reflexivity.
Qed.

End SelectionOrder.

(** ** Evaluation on any object, for any float arithmetic *)

Section EvaluationEdges.
Context {F : Type} `{PyFloat F}.
Variable WHERE_EPSILON : F.

#[local] Abbreviation Self := (CompositeParamScheduler F).

(** X7. [__init__] checks nothing: on an instance without lengths or
    without schedulers, [__call__] raises [IndexError] at every progress
    value. *)
Theorem call_on_empty_raises (self : Self) (where_ : F) :
  _lengths self = [] \/ _schedulers self = [] ->
  fst (__call__ WHERE_EPSILON where_ self) = Raise IndexError.
Proof.
  intros Hempty. rewrite call_unfold, select_unfold.
  destruct (_lengths self !! O) as [running_total |] eqn:Hl; [| reflexivity].
  destruct Hempty as [Hnil | Hnil];
    [rewrite Hnil in Hl; discriminate |].
  rewrite while_loop_unfold. unfold loop_test. rewrite Hnil.
  replace (Z.of_nat 0 <? Z.of_nat (length []) - 1)%Z with false by reflexivity.
  rewrite andb_false_r. cbn [fst].
  rewrite delegate_unfold, Hnil. reflexivity.
Qed.

(** On a well-formed object every list access of [__call__] is in range:
    the call ends in the outcome of the selected sub-scheduler, or in
    [ZeroDivisionError]. *)
Lemma call_in_range (self : Self) (where_ : F) :
  well_formed self ->
  exists i scheduler,
    (i < length (_schedulers self))%nat
    /\ _schedulers self !! i = Some scheduler
    /\ selects WHERE_EPSILON self where_ i
    /\ (fst (__call__ WHERE_EPSILON where_ self) = Raise ZeroDivisionError
        \/ exists local_where,
             fst (__call__ WHERE_EPSILON where_ self) = scheduler local_where).
Proof.
  intros Hwf. pose proof Hwf as (Hlen & Hmodes & Hn).
  destruct (select_terminates WHERE_EPSILON self where_ Hwf)
    as (i & rt & Hsel & Hi).
  destruct (lookup_lt_is_Some_2 (_schedulers self) i) as [scheduler Hs];
    [lia |].
  destruct (lookup_lt_is_Some_2 (_interval_scaling self) i) as [mode Hm];
    [lia |].
  destruct (lookup_lt_is_Some_2 (_lengths self) i) as [length_i Hl]; [lia |].
  exists i, scheduler. split; [exact Hi |]. split; [exact Hs |].
  split; [exists rt; exact Hsel |].
  rewrite call_unfold, Hsel. cbn beta iota.
  rewrite delegate_unfold. unfold ClassyParamScheduler in *.
  rewrite Hs, Hm. destruct mode; [| right; eauto].
  rewrite Hl. destruct (fdiv _ _); [right; eauto | left; reflexivity].
Qed.

(** X15. A composite of a single FIXED segment is transparent: whatever
    its length and the epsilon, [__call__] is the sub-scheduler itself. *)
Theorem single_fixed_segment_is_transparent
    (scheduler : ClassyParamScheduler F) (length_0 : F)
    (cadence : UpdateInterval) (where_ : F) :
  fst (__call__ WHERE_EPSILON where_
         (__init__ [scheduler] [length_0] cadence [FIXED]))
  = scheduler where_.
Proof.
  rewrite call_unfold, select_unfold. cbn [_lengths __init__ lookup list_lookup].
  rewrite while_loop_unfold. unfold loop_test. cbn [_schedulers __init__ length].
  replace (Z.of_nat 0 <? Z.of_nat 1 - 1)%Z with false by reflexivity.
  rewrite andb_false_r. cbn [fst].
  rewrite delegate_unfold. reflexivity.
Qed.

End EvaluationEdges.

(** ** What [from_config] returns, and what it leaves behind *)

Lemma propagated_fmap {F : Type} (num_epochs : option (pyval F))
    (schedulers : list (SubConfig F)) :
  propagated num_epochs schedulers = with_epochs num_epochs <$> schedulers.
Proof.
  unfold propagated, with_epochs. destruct num_epochs; [reflexivity |].
  symmetry. apply list_fmap_id.
Qed.

Section Constructed.
Context {F : Type} `{PyFloat F}.
Variable build_param_scheduler :
  SubConfig F -> outcome (ClassyParamScheduler F).

#[local] Abbreviation Conf := (Config F).

Lemma build_list_Forall2 (configs : list (SubConfig F)) built :
  build_list build_param_scheduler configs = Return built ->
  Forall2 (fun config scheduler =>
             build_param_scheduler config = Return scheduler)
    configs built.
Proof.
  revert built. induction configs as [| config rest IH]; intros built; simpl.
  - intros Hbuilt. injection Hbuilt as <-. constructor.
  - destruct (build_param_scheduler config) as [scheduler | |] eqn:Hone;
      try discriminate.
    destruct (build_list build_param_scheduler rest) as [others | |];
      try discriminate.
    intros Hbuilt. injection Hbuilt as <-. constructor; [exact Hone |].
    apply IH. reflexivity.
Qed.

Lemma build_list_failure (configs : list (SubConfig F)) :
  (forall built, build_list build_param_scheduler configs <> Return built) ->
  exists config,
    config ∈ configs
    /\ same_failure (build_param_scheduler config)
         (build_list build_param_scheduler configs).
Proof.
  induction configs as [| config rest IH]; simpl; intros Hfails.
  - exfalso. exact (Hfails [] eq_refl).
  - destruct (build_param_scheduler config) as [scheduler | e |] eqn:Hone.
    + destruct (build_list build_param_scheduler rest) as [others | e |]
        eqn:Hrest.
      * exfalso. exact (Hfails _ eq_refl).
      * destruct IH as (config' & Hin & Hsame); [discriminate |].
        exists config'. split; [apply list_elem_of_further, Hin | exact Hsame].
      * destruct IH as (config' & Hin & Hsame); [discriminate |].
        exists config'. split; [apply list_elem_of_further, Hin | exact Hsame].
    + exists config. split; [apply list_elem_of_here |].
      rewrite Hone. reflexivity.
    + exists config. split; [apply list_elem_of_here |].
      rewrite Hone. exact I.
Qed.

(** A configuration from which an instance is returned passes the
    assertions. *)
Lemma returned_valid (config : Conf) instance :
  fst (from_config build_param_scheduler config) = Return instance ->
  valid_config config.
Proof.
  intros Hrun.
  destruct (from_config_checks build_param_scheduler config)
    as [Hvalid | [_ [msg Hmsg]]]; [exact Hvalid | congruence].
Qed.

(** The returned instance, attribute by attribute. *)
Lemma returned_fields (config : Conf) instance :
  fst (from_config build_param_scheduler config) = Return instance ->
  exists schedulers lengths built,
    config_schedulers config = Some schedulers
    /\ config_lengths config = Some lengths
    /\ length schedulers = length lengths
    /\ (0 < length schedulers)%nat
    /\ within_tolerance lengths = true
    /\ build_list build_param_scheduler
         (with_epochs (config_num_epochs config) <$> schedulers)
       = Return built
    /\ instance = __init__ built (closed_lengths lengths)
                    (cadence_read config) (scaling_read config).
Proof.
  intros Hrun. pose proof (returned_valid config instance Hrun) as Hvalid.
  rewrite (from_config_valid build_param_scheduler config Hvalid) in Hrun.
  cbn [fst] in Hrun.
  destruct Hvalid as (schedulers & lengths & Hs & Hl & Hlen & Hn & Htol & _).
  exists schedulers, lengths.
  unfold built_instance, config_after in Hrun.
  cbn [config_schedulers config_lengths] in Hrun. rewrite Hs, Hl in Hrun.
  cbn [fmap option_fmap option_map default from_option id] in Hrun.
  rewrite propagated_fmap in Hrun.
  destruct (build_list build_param_scheduler _) as [built | |] eqn:Hbuilt;
    try discriminate.
  injection Hrun as <-. exists built. auto 10.
Qed.

(** X1. An instance that [from_config] returns has one scheduler, one
    length and one scaling mode per sub-configuration, and at least one: it
    is well formed. *)
Theorem constructed_instance_shape (config : Conf) instance :
  fst (from_config build_param_scheduler config) = Return instance ->
  exists schedulers,
    config_schedulers config = Some schedulers
    /\ (0 < length schedulers)%nat
    /\ length (_schedulers instance) = length schedulers
    /\ length (_lengths instance) = length schedulers
    /\ length (_interval_scaling instance) = length schedulers
    /\ well_formed instance.
Proof.
  intros Hrun.
  pose proof (from_config_well_formed build_param_scheduler config instance
                (returned_valid config instance Hrun) Hrun)
    as (Hlengths & Hmodes & Hn).
  destruct (returned_fields config instance Hrun)
    as (schedulers & lengths & built & Hs & _ & _ & Hpos & _ & Hbuilt & ->).
  apply build_list_length in Hbuilt. rewrite length_fmap in Hbuilt.
  cbn [_lengths _schedulers _interval_scaling __init__] in *.
  exists schedulers. split; [exact Hs |]. split; [exact Hpos |].
  split; [exact Hbuilt |]. split; [lia |]. split; [lia |].
  unfold well_formed. cbn [_lengths _schedulers _interval_scaling __init__].
  auto.
Qed.

(** X2. On an instance that [from_config] returns, [__call__] never runs
    off a list: at every progress value, and whatever the epsilon, it ends
    in the outcome of one of the instance's sub-schedulers or in
    [ZeroDivisionError]. *)
Theorem constructed_call_in_range (config : Conf) instance
    (WHERE_EPSILON where_ : F) :
  fst (from_config build_param_scheduler config) = Return instance ->
  exists i scheduler,
    (i < length (_schedulers instance))%nat
    /\ _schedulers instance !! i = Some scheduler
    /\ selects WHERE_EPSILON instance where_ i
    /\ (fst (__call__ WHERE_EPSILON where_ instance) = Raise ZeroDivisionError
        \/ exists local_where,
             fst (__call__ WHERE_EPSILON where_ instance)
             = scheduler local_where).
Proof.
  intros Hrun. apply call_in_range.
  exact (from_config_well_formed build_param_scheduler config instance
           (returned_valid config instance Hrun) Hrun).
Qed.

(** X8. The cadence of the returned instance: STEP when the configuration
    has no ["update_interval"], and otherwise the member named by the
    string, which is "step" or "epoch". *)
Theorem constructed_update_interval (config : Conf) instance :
  fst (from_config build_param_scheduler config) = Return instance ->
  (config_update_interval config = None -> update_interval instance = STEP)
  /\ (forall name, config_update_interval config = Some name ->
        name = "step" /\ update_interval instance = STEP
        \/ name = "epoch" /\ update_interval instance = EPOCH).
Proof.
  intros Hrun. pose proof (returned_valid config instance Hrun) as Hvalid.
  destruct (returned_fields config instance Hrun)
    as (schedulers & lengths & built & _ & _ & _ & _ & _ & _ & ->).
  cbn [update_interval __init__]. unfold cadence_read. split.
  - intros ->. reflexivity.
  - intros name Hname. rewrite Hname.
    destruct Hvalid as (_ & _ & _ & _ & _ & _ & _ & Hcad & _).
    destruct (Hcad name Hname) as [member Hmember]. revert Hmember.
    unfold cadence_of_string.
    destruct (String.eqb_spec name "step") as [-> | _]; [left; auto |].
    destruct (String.eqb_spec name "epoch") as [-> | _]; [right; auto |].
    discriminate.
Qed.

(** X9. The scaling modes of the returned instance: RESCALED for every
    segment when the configuration has no ["interval_scaling"], and
    otherwise, position by position, the member named by the string, which
    is "fixed" or "rescaled". *)
Theorem constructed_interval_scaling (config : Conf) instance :
  fst (from_config build_param_scheduler config) = Return instance ->
  (config_interval_scaling config = None ->
   _interval_scaling instance
   = replicate (length (_schedulers instance)) RESCALED)
  /\ (forall scales, config_interval_scaling config = Some scales ->
        Forall2 (fun name mode =>
                   name = "fixed" /\ mode = FIXED
                   \/ name = "rescaled" /\ mode = RESCALED)
          scales (_interval_scaling instance)).
Proof.
  intros Hrun. pose proof (returned_valid config instance Hrun) as Hvalid.
  destruct (returned_fields config instance Hrun)
    as (schedulers & lengths & built & Hs & _ & _ & _ & _ & Hbuilt & ->).
  apply build_list_length in Hbuilt. rewrite length_fmap in Hbuilt.
  cbn [_interval_scaling _schedulers __init__]. unfold scaling_read. split.
  - intros ->. rewrite Hs, Hbuilt. reflexivity.
  - intros scales Hscales. rewrite Hscales.
    destruct Hvalid as (ss & _ & Hs' & _ & _ & _ & _ & _ & Hscal).
    destruct (Hscal scales Hscales) as [_ [members Hmembers]].
    rewrite Hmembers. cbn [default from_option id].
    apply mapM_Some_1 in Hmembers.
    eapply Forall2_impl; [exact Hmembers |].
    intros name mode. unfold scaling_of_string.
    destruct (String.eqb_spec name "fixed") as [-> | _];
      [intros Hm; injection Hm as <-; left; auto |].
    destruct (String.eqb_spec name "rescaled") as [-> | _];
      [intros Hm; injection Hm as <-; right; auto | discriminate].
Qed.

(** X10. The sub-schedulers of the returned instance are, in order, what
    [build_param_scheduler] returns for each sub-configuration with
    ["num_epochs"] set to the composite's value (which replaces a value the
    sub-configuration had), or for the sub-configuration itself when the
    composite has no ["num_epochs"]. *)
Theorem constructed_schedulers (config : Conf) instance
    (schedulers : list (SubConfig F)) :
  fst (from_config build_param_scheduler config) = Return instance ->
  config_schedulers config = Some schedulers ->
  Forall2 (fun schedule scheduler =>
             build_param_scheduler
               match config_num_epochs config with
               | Some value => <["num_epochs" := value]> schedule
               | None => schedule
               end
             = Return scheduler)
    schedulers (_schedulers instance).
Proof.
  intros Hrun Hs.
  destruct (returned_fields config instance Hrun)
    as (schedulers' & lengths & built & Hs' & _ & _ & _ & _ & Hbuilt & ->).
  assert (schedulers' = schedulers) by congruence. subst schedulers'.
  cbn [_schedulers __init__].
  apply build_list_Forall2 in Hbuilt. apply Forall2_fmap_l in Hbuilt.
  exact Hbuilt.
Qed.

(** X14. The code of [from_config] raises nothing but [AssertionError]:
    a run ends in a failed assertion, or returns an instance, or fails as
    [build_param_scheduler] fails on one of the sub-configurations (with
    ["num_epochs"] written into it). *)
Theorem from_config_outcomes (config : Conf) :
  (exists msg,
     fst (from_config build_param_scheduler config)
     = Raise (AssertionError msg)
     /\ violation config)
  \/ (exists instance,
        fst (from_config build_param_scheduler config) = Return instance)
  \/ (exists schedulers schedule,
        config_schedulers config = Some schedulers
        /\ schedule ∈ schedulers
        /\ same_failure
             (build_param_scheduler
                (with_epochs (config_num_epochs config) schedule))
             (fst (from_config build_param_scheduler config))).
Proof.
  destruct (from_config_checks build_param_scheduler config)
    as [Hvalid | [Hbad [msg Hmsg]]]; [| left; eauto].
  right. rewrite (from_config_valid build_param_scheduler config Hvalid).
  cbn [fst].
  destruct Hvalid as (schedulers & lengths & Hs & Hl & _).
  unfold built_instance, config_after.
  cbn [config_schedulers config_lengths]. rewrite Hs, Hl.
  cbn [fmap option_fmap option_map default from_option id].
  rewrite propagated_fmap.
  destruct (build_list build_param_scheduler _) as [built | e |] eqn:Hbuilt;
    [left; eauto | right | right].
  - destruct (build_list_failure
                (with_epochs (config_num_epochs config) <$> schedulers))
      as (copy & Hin & Hsame); [rewrite Hbuilt; discriminate |].
    apply list_elem_of_fmap in Hin. destruct Hin as (schedule & -> & Hin).
    exists schedulers, schedule. rewrite Hbuilt in Hsame. auto.
  - destruct (build_list_failure
                (with_epochs (config_num_epochs config) <$> schedulers))
      as (copy & Hin & Hsame); [rewrite Hbuilt; discriminate |].
    apply list_elem_of_fmap in Hin. destruct Hin as (schedule & -> & Hin).
    exists schedulers, schedule. rewrite Hbuilt in Hsame. auto.
Qed.

End Constructed.

(** ** The caller's dictionary after a rejected configuration *)

Section Rejected.
Context {F : Type} `{PyFloat F}.
Variable build_param_scheduler :
  SubConfig F -> outcome (ClassyParamScheduler F).

#[local] Abbreviation Conf := (Config F).

(** A run that an assertion ends, with the dictionary it leaves. *)
Lemma from_config_rejected (config : Conf) :
  violation config ->
  exists msg,
    from_config build_param_scheduler config
    = (Raise (AssertionError msg), rejected_state config).
Proof.
  intros Hbad. unfold rejected_state.
  destruct (config_schedulers config) as [schedulers |] eqn:Hs.
  2: { unfold from_config, bind. rewrite validate_run, Hs. eauto. }
  destruct (config_lengths config) as [lengths |] eqn:Hl.
  2: { unfold from_config, bind. rewrite validate_run, Hs, Hl. eauto. }
  destruct (length schedulers =? length lengths)%nat eqn:Hlen.
  2: { unfold from_config, bind. rewrite validate_run, Hs, Hl, Hlen. eauto. }
  destruct (0 <? length schedulers)%nat eqn:Hn.
  2: { unfold from_config, bind. rewrite validate_run, Hs, Hl, Hlen, Hn.
       eauto. }
  destruct (within_tolerance lengths) eqn:Htol.
  2: { unfold from_config, bind. rewrite validate_run, Hs, Hl, Hlen, Hn, Htol.
       eauto. }
  cbn [andb]. apply Nat.eqb_eq in Hlen. apply Nat.ltb_lt in Hn.
  rewrite (from_config_validated build_param_scheduler config schedulers
             lengths) by assumption.
  destruct (closed_fields config lengths Hl) as (Hs1 & Hl1 & Hu1 & Hi1 & Hn1).
  rewrite Hs in Hs1.
  set (config1 := config_closed config lengths) in *.
  unfold bind at 1. rewrite read_update_interval_run, Hu1.
  destruct (config_update_interval config) as [name |] eqn:Hu.
  - destruct (cadence_of_string name) as [member |] eqn:Hname; [| eauto].
    unfold bind at 1.
    rewrite (read_interval_scaling_run config1 schedulers Hs1), Hi1.
    destruct (config_interval_scaling config) as [scales |] eqn:Hi.
    + destruct (length schedulers =? length scales)%nat eqn:Hsame; [| eauto].
      destruct (mapM scaling_of_string scales) as [members |] eqn:Hm;
        [| eauto].
      exfalso. apply (valid_config_no_violation config); [| exact Hbad].
      exists schedulers, lengths. apply Nat.eqb_eq in Hsame.
      split; [exact Hs |]. split; [exact Hl |]. split; [exact Hlen |].
      split; [exact Hn |]. split; [exact Htol |]. split.
      * intros name' Heq. rewrite Hu in Heq. injection Heq as <-.
        rewrite Hname. eauto.
      * intros scales' Heq. rewrite Hi in Heq. injection Heq as <-.
        rewrite Hm. eauto.
    + exfalso. apply (valid_config_no_violation config); [| exact Hbad].
      exists schedulers, lengths.
      split; [exact Hs |]. split; [exact Hl |]. split; [exact Hlen |].
      split; [exact Hn |]. split; [exact Htol |]. split.
      * intros name' Heq. rewrite Hu in Heq. injection Heq as <-.
        rewrite Hname. eauto.
      * intros scales' Heq. rewrite Hi in Heq. discriminate Heq.
  - unfold bind at 1.
    rewrite (read_interval_scaling_run config1 schedulers Hs1), Hi1.
    destruct (config_interval_scaling config) as [scales |] eqn:Hi.
    + destruct (length schedulers =? length scales)%nat eqn:Hsame; [| eauto].
      destruct (mapM scaling_of_string scales) as [members |] eqn:Hm;
        [| eauto].
      exfalso. apply (valid_config_no_violation config); [| exact Hbad].
      exists schedulers, lengths. apply Nat.eqb_eq in Hsame.
      split; [exact Hs |]. split; [exact Hl |]. split; [exact Hlen |].
      split; [exact Hn |]. split; [exact Htol |]. split.
      * intros name' Heq. rewrite Hu in Heq. discriminate Heq.
      * intros scales' Heq. rewrite Hi in Heq. injection Heq as <-.
        rewrite Hm. eauto.
    + exfalso. apply (valid_config_no_violation config); [| exact Hbad].
      exists schedulers, lengths.
      split; [exact Hs |]. split; [exact Hl |]. split; [exact Hlen |].
      split; [exact Hn |]. split; [exact Htol |]. split.
      * intros name' Heq. rewrite Hu in Heq. discriminate Heq.
      * intros scales' Heq. rewrite Hi in Heq. discriminate Heq.
Qed.

(** X11. A configuration that an assertion rejects is not left as it was
    when the two lists were in order: the rejection then comes after lines
    89-90, and the caller's lengths are already closed.  Nothing else is
    written: the sub-configurations, the update interval, the scaling modes
    and ["num_epochs"] are what they were, and when one of the first four
    assertions fails the dictionary is unchanged. *)
Theorem rejected_config_state (config : Conf) :
  violation config ->
  let after := snd (from_config build_param_scheduler config) in
  config_schedulers after = config_schedulers config
  /\ config_update_interval after = config_update_interval config
  /\ config_interval_scaling after = config_interval_scaling config
  /\ config_num_epochs after = config_num_epochs config
  /\ (forall schedulers lengths,
        config_schedulers config = Some schedulers ->
        config_lengths config = Some lengths ->
        length schedulers = length lengths ->
        (0 < length schedulers)%nat ->
        within_tolerance lengths = true ->
        config_lengths after = Some (closed_lengths lengths))
  /\ (config_schedulers config = None
      \/ config_lengths config = None
      \/ (exists schedulers lengths,
            config_schedulers config = Some schedulers
            /\ config_lengths config = Some lengths
            /\ (length schedulers <> length lengths
                \/ schedulers = []
                \/ within_tolerance lengths = false)) ->
      after = config).
Proof.
  intros Hbad after. unfold after. clear after.
  destruct (from_config_rejected config Hbad) as [msg ->]. cbn [snd].
  unfold rejected_state.
  destruct (config_schedulers config) as [schedulers |] eqn:Hs.
  2: { repeat split; try (rewrite ?Hs; reflexivity).
       intros ss ls Habsent. discriminate Habsent. }
  destruct (config_lengths config) as [lengths |] eqn:Hl.
  2: { repeat split; try (rewrite ?Hs; reflexivity).
       intros ss ls _ Habsent. discriminate Habsent. }
  destruct (closed_fields config lengths Hl) as (Hs1 & Hl1 & Hu1 & Hi1 & Hn1).
  destruct ((length schedulers =? length lengths)%nat
            && (0 <? length schedulers)%nat
            && within_tolerance lengths) eqn:Hchecks.
  - apply andb_true_iff in Hchecks. destruct Hchecks as [Hchecks Htol].
    apply andb_true_iff in Hchecks. destruct Hchecks as [Hlen Hn].
    apply Nat.eqb_eq in Hlen. apply Nat.ltb_lt in Hn.
    split; [rewrite Hs1; exact Hs |]. split; [exact Hu1 |].
    split; [exact Hi1 |]. split; [exact Hn1 |]. split.
    + intros ss ls Hss Hls _ _ _. injection Hls as <-. exact Hl1.
    + intros [Habsent | [Habsent | (ss & ls & Hss & Hls & Hfail)]];
        try discriminate.
      injection Hss as <-. injection Hls as <-.
      destruct Hfail as [Hdiff | [Hnil | Hout]];
        [contradiction | subst schedulers; simpl in Hn; lia | congruence].
  - split; [exact Hs |]. split; [reflexivity |]. split; [reflexivity |].
    split; [reflexivity |]. split; [| reflexivity].
    intros ss ls Hss Hls Hlen Hn Htol.
    injection Hss as <-. injection Hls as <-.
    rewrite (proj2 (Nat.eqb_eq _ _) Hlen), (proj2 (Nat.ltb_lt _ _) Hn), Htol
      in Hchecks.
    discriminate.
Qed.

End Rejected.

(** ** [from_config], run a second time *)

Lemma propagated_length {F : Type} (num_epochs : option (pyval F))
    (schedulers : list (SubConfig F)) :
  length (propagated num_epochs schedulers) = length schedulers.
Proof.
  unfold propagated. destruct num_epochs; [apply length_fmap | reflexivity].
Qed.

Lemma propagated_idem {F : Type} (num_epochs : option (pyval F))
    (schedulers : list (SubConfig F)) :
  propagated num_epochs (propagated num_epochs schedulers)
  = propagated num_epochs schedulers.
Proof.
  unfold propagated. destruct num_epochs as [value |]; [| reflexivity].
  rewrite <- list_fmap_compose. apply list_fmap_ext.
  intros i schedule _. unfold compose, SubConfig in *. apply insert_insert_eq.
Qed.

Lemma closed_lengths_length {F : Type} `{PyFloat F} (lengths : list F) :
  length (closed_lengths lengths) = length lengths.
Proof.
  unfold closed_lengths. destruct (fneb _ _); [apply length_insert | reflexivity].
Qed.

Lemma within_tolerance_exact (lengths : list Q) :
  within_tolerance lengths = true
  <-> (- (1 # 1000) < sum lengths - 1 < 1 # 1000)%Q.
Proof.
  unfold within_tolerance. cbn [fltb fabs fsub lit_1_0 lit_1e_3 Q_float].
  rewrite Qltb_lt, Qabs_Qlt_condition.
  change (1.0%Q) with (10 # 10)%Q. change (1e-3%Q) with (1 # 1000)%Q.
  assert (Hone : ((10 # 10) == 1)%Q) by reflexivity.
  rewrite Hone. reflexivity.
Qed.

Lemma closed_lengths_idem (lengths : list Q) :
  (0 < length lengths)%nat ->
  closed_lengths (closed_lengths lengths) = closed_lengths lengths.
Proof.
  intros Hlen. destruct (Qeq_dec (sum lengths) 1) as [Hone | Hoff].
  - rewrite !(closed_lengths_id lengths Hone). reflexivity.
  - apply closed_lengths_id. apply (closed_lengths_sum lengths Hlen Hoff).
Qed.

Lemma within_tolerance_closed (lengths : list Q) :
  (0 < length lengths)%nat ->
  within_tolerance lengths = true ->
  within_tolerance (closed_lengths lengths) = true.
Proof.
  intros Hlen Htol. destruct (Qeq_dec (sum lengths) 1) as [Hone | Hoff].
  - rewrite (closed_lengths_id lengths Hone). exact Htol.
  - apply within_tolerance_exact.
    destruct (closed_lengths_sum lengths Hlen Hoff) as (_ & Hone & _).
    rewrite Hone. split; reflexivity.
Qed.

Section ConstructedExact.
Local Open Scope Q_scope.
Variable build_param_scheduler :
  SubConfig Q -> outcome (ClassyParamScheduler Q).

(** X13. A second construction from the same dictionary writes nothing and
    ends as the first: after a run that passes the assertions, the caller's
    dictionary still passes them, and running [from_config] on it again
    leaves it as it is and has the same outcome. *)
Theorem from_config_twice (config : Config Q) :
  valid_config config ->
  let first := from_config build_param_scheduler config in
  valid_config (snd first)
  /\ from_config build_param_scheduler (snd first) = first.
Proof.
  intros Hvalid first. unfold first. clear first.
  rewrite (from_config_valid build_param_scheduler config Hvalid). cbn [snd].
  destruct Hvalid
    as (schedulers & lengths & Hs & Hl & Hlen & Hn & Htol & Hcad & Hscal).
  destruct config as [cs cl cu ci cn]. simpl in Hs, Hl, Hcad, Hscal.
  subst cs cl.
  assert (Hpos : (0 < length lengths)%nat) by lia.
  assert (Hvalid' : valid_config
                      (config_after
                         {| config_schedulers := Some schedulers;
                            config_lengths := Some lengths;
                            config_update_interval := cu;
                            config_interval_scaling := ci;
                            config_num_epochs := cn |})).
  { exists (propagated cn schedulers), (closed_lengths lengths).
    split; [reflexivity |]. split; [reflexivity |].
    rewrite propagated_length, closed_lengths_length.
    split; [exact Hlen |]. split; [exact Hn |].
    split; [exact (within_tolerance_closed lengths Hpos Htol) |].
    split; [exact Hcad | exact Hscal]. }
  assert (Hidem : config_after
                    (config_after
                       {| config_schedulers := Some schedulers;
                          config_lengths := Some lengths;
                          config_update_interval := cu;
                          config_interval_scaling := ci;
                          config_num_epochs := cn |})
                  = config_after
                      {| config_schedulers := Some schedulers;
                         config_lengths := Some lengths;
                         config_update_interval := cu;
                         config_interval_scaling := ci;
                         config_num_epochs := cn |}).
  { unfold config_after. simpl.
    rewrite propagated_idem, (closed_lengths_idem lengths Hpos). reflexivity. }
  split; [exact Hvalid' |].
  rewrite (from_config_valid build_param_scheduler _ Hvalid'), Hidem.
  f_equal. unfold built_instance. rewrite Hidem.
  unfold cadence_read, scaling_read, config_after. simpl.
  rewrite propagated_length. reflexivity.
Qed.

End ConstructedExact.

(** ** Further runs of the scenarios *)

Section MoreRuns.
Import Scenario.
Local Open Scope Q_scope.

Lemma scenario_d_returns :
  fst (from_config build_echo scenario_d) = Return scenario_d_instance.
Proof. reflexivity. Qed.

Lemma with_num_epochs_returns :
  fst (from_config build_echo with_num_epochs)
  = Return with_num_epochs_instance.
Proof. reflexivity. Qed.

Lemma zero_tail_returns :
  fst (from_config build_echo zero_tail) = Return zero_tail_instance.
Proof. reflexivity. Qed.

(** The instance built from Scenario D has two entries in each list. *)
Lemma scenario_d_instance_shape :
  fst (from_config build_echo scenario_d) = Return scenario_d_instance
  /\ length (_schedulers scenario_d_instance) = 2%nat
  /\ well_formed scenario_d_instance.
Proof.
  split; [exact scenario_d_returns |].
  destruct (constructed_instance_shape build_echo scenario_d
              scenario_d_instance scenario_d_returns)
    as (schedulers & Hs & _ & Hlen & _ & _ & Hwf).
  injection Hs as <-. split; [exact Hlen | exact Hwf].
Defined.

(** At [where = 0.5] the instance built from Scenario D ends in the outcome
    of one of its two sub-schedulers, or in [ZeroDivisionError]. *)
Lemma scenario_d_call_in_range :
  exists i scheduler,
    (i < length (_schedulers scenario_d_instance))%nat
    /\ _schedulers scenario_d_instance !! i = Some scheduler
    /\ selects epsilon scenario_d_instance 0.5 i
    /\ (fst (__call__ epsilon 0.5 scenario_d_instance)
        = Raise ZeroDivisionError
        \/ exists local_where,
             fst (__call__ epsilon 0.5 scenario_d_instance)
             = scheduler local_where).
Proof.
  exact (constructed_call_in_range build_echo scenario_d scenario_d_instance
           epsilon 0.5 scenario_d_returns).
Defined.

(** On [three_way], [0.2] selects segment 0 and the later [0.5] segment
    1. *)
Lemma three_way_in_order :
  0.2 <= 0.5
  /\ selects epsilon three_way 0.2 0
  /\ selects epsilon three_way 0.5 1
  /\ (0 <= 1)%nat.
Proof.
  assert (Hle : 0.2 <= 0.5) by (vm_compute; discriminate).
  assert (Hfirst : selects epsilon three_way 0.2 0)
    by (eexists; vm_compute; reflexivity).
  assert (Hsecond : selects epsilon three_way 0.5 1)
    by (eexists; vm_compute; reflexivity).
  split; [exact Hle |]. split; [exact Hfirst |]. split; [exact Hsecond |].
  exact (selection_monotone epsilon three_way 0.2 0.5 0 1
           (proj1 three_way_well_formed) Hle Hfirst Hsecond).
Defined.

(** [from_config] accepts the lengths [[1.0, 0.0]], and the instance raises
    [ZeroDivisionError] at [where = 1.0]; so does the binary64 run. *)
Lemma zero_tail_raises :
  fst (from_config build_echo zero_tail) = Return zero_tail_instance
  /\ fst (__call__ epsilon 1 zero_tail_instance) = Raise ZeroDivisionError
  /\ (exists instance,
        fst (from_config build_echo zero_tail_binary64) = Return instance
        /\ fst (__call__ epsilon_binary64 1%float instance)
           = Raise ZeroDivisionError).
Proof.
  split; [exact zero_tail_returns |]. split.
  - apply (zero_length_segment_raises epsilon zero_tail_instance 1 1
             (1.0 + 0.0) 0.0); try reflexivity.
    eexists; reflexivity.
  - eexists. split; vm_compute; reflexivity.
Defined.

(** An instance made from empty lists raises [IndexError]. *)
Lemma empty_composite_raises :
  _lengths empty_composite = []
  /\ fst (__call__ epsilon 0.5 empty_composite) = Raise IndexError.
Proof.
  split; [reflexivity |].
  apply (call_on_empty_raises epsilon empty_composite 0.5).
  left. reflexivity.
Defined.

(** With ["update_interval"] set to "epoch", the instance has the cadence
    EPOCH. *)
Lemma with_num_epochs_cadence :
  config_update_interval with_num_epochs = Some "epoch"
  /\ update_interval with_num_epochs_instance = EPOCH.
Proof.
  split; [reflexivity |].
  destruct (constructed_update_interval build_echo with_num_epochs
              with_num_epochs_instance with_num_epochs_returns)
    as [_ Hname].
  destruct (Hname "epoch" eq_refl) as [[Hstep _] | [_ Hepoch]];
    [discriminate Hstep | exact Hepoch].
Defined.

(** With ["interval_scaling"] set to [["fixed", "rescaled"]], the instance
    has the modes FIXED and RESCALED, in this order. *)
Lemma with_num_epochs_scaling :
  config_interval_scaling with_num_epochs = Some ["fixed"; "rescaled"]
  /\ Forall2 (fun name mode =>
                name = "fixed" /\ mode = FIXED
                \/ name = "rescaled" /\ mode = RESCALED)
       ["fixed"; "rescaled"] (_interval_scaling with_num_epochs_instance).
Proof.
  split; [reflexivity |].
  exact (proj2 (constructed_interval_scaling build_echo with_num_epochs
                  with_num_epochs_instance with_num_epochs_returns)
           ["fixed"; "rescaled"] eq_refl).
Defined.

(** With ["num_epochs"] set to 90, each sub-scheduler is built from its
    sub-configuration with ["num_epochs"] written into it. *)
Lemma with_num_epochs_schedulers :
  Forall2 (fun schedule scheduler =>
             build_echo (<["num_epochs" := PyInt 90]> schedule)
             = Return scheduler)
    two_sub_configs (_schedulers with_num_epochs_instance).
Proof.
  exact (constructed_schedulers build_echo with_num_epochs
           with_num_epochs_instance two_sub_configs with_num_epochs_returns
           eq_refl).
Defined.

(** [rewritten_then_rejected] is rejected for its update interval; its
    lengths have been overwritten, its sub-configurations have not. *)
Lemma rewritten_then_rejected_state :
  violation rewritten_then_rejected
  /\ (let after := snd (from_config build_echo rewritten_then_rejected) in
      config_lengths after = Some [0.3; 1.0 - (0 + 0.3)]
      /\ config_lengths after <> config_lengths rewritten_then_rejected
      /\ config_schedulers after = Some two_sub_configs).
Proof.
  assert (Hbad : violation rewritten_then_rejected)
    by (apply (unknown_update_interval _ "batch"); reflexivity).
  split; [exact Hbad |].
  destruct (rejected_config_state build_echo rewritten_then_rejected Hbad)
    as (Hs & _ & _ & _ & Hclosed & _).
  pose proof (Hclosed two_sub_configs [0.3; 0.7001] eq_refl eq_refl eq_refl
                ltac:(simpl; lia) eq_refl) as Hlengths.
  split; [exact Hlengths |]. split; [| exact Hs].
  rewrite Hlengths. intros Hsame. vm_compute in Hsame. discriminate Hsame.
Defined.

(** A second construction from [with_num_epochs] writes nothing more. *)
Lemma with_num_epochs_twice :
  let first := from_config build_echo with_num_epochs in
  valid_config (snd first)
  /\ from_config build_echo (snd first) = first.
Proof.
  exact (from_config_twice build_echo with_num_epochs with_num_epochs_valid).
Defined.

End MoreRuns.

(** * The code on its own arithmetic

    The statements of this part hold for any float arithmetic, binary64
    included: they use no law of arithmetic, and speak of the sums and
    comparisons as the code computes them. *)


Section SelectionFloat.
Context {F : Type} `{PyFloat F}.
Variable WHERE_EPSILON : F.

#[local] Abbreviation Self := (CompositeParamScheduler F).

Lemma loop_test_beyond (self : Self) (where_ : F) (i : nat) (running_total : F) :
  loop_test WHERE_EPSILON self where_ i running_total =
  beyond WHERE_EPSILON where_ running_total
  && (Z.of_nat i <? Z.of_nat (length (_schedulers self)) - 1)%Z.
Proof. reflexivity. Qed.

(** Among the indices up to [n] there is a first one at which the loop's
    comparison fails, unless it holds at all of them before [n]. *)
Lemma first_failure_exists (lengths : list F) (where_ : F) (n : nat) :
  exists k,
    (k <= n)%nat
    /\ (forall j, (j < k)%nat ->
          beyond WHERE_EPSILON where_ (boundary lengths j) = true)
    /\ (k = n \/ beyond WHERE_EPSILON where_ (boundary lengths k) = false).
Proof.
  induction n as [| n (k & Hk & Hbefore & Hstop)].
  - exists O. split; [lia |]. split; [intros j Hj; lia | left; reflexivity].
  - destruct Hstop as [-> | Hfails].
    + destruct (beyond WHERE_EPSILON where_ (boundary lengths n)) eqn:Hn.
      * exists (S n). split; [lia |]. split; [| left; reflexivity].
        intros j Hj. destruct (decide (j = n)) as [-> | Hne]; [exact Hn |].
        apply Hbefore. lia.
      * exists n. split; [lia |]. split; [exact Hbefore | right; exact Hn].
    + exists k. split; [lia |]. split; [exact Hbefore | right; exact Hfails].
Qed.

(** The loop runs to the first index at which it may stop. *)
Lemma while_loop_reaches_first (self : Self) (where_ : F) (k : nat) :
  length (_lengths self) = length (_schedulers self) ->
  (k < length (_schedulers self))%nat ->
  (forall j, (j < k)%nat ->
     beyond WHERE_EPSILON where_ (boundary (_lengths self) j) = true) ->
  (k = (length (_schedulers self) - 1)%nat
   \/ beyond WHERE_EPSILON where_ (boundary (_lengths self) k) = false) ->
  forall fuel i, (i <= k)%nat -> (k - i <= fuel)%nat ->
    while_loop WHERE_EPSILON fuel where_ i (boundary (_lengths self) i) self
    = (Return (k, boundary (_lengths self) k), self).
Proof.
  intros Hlen Hk Hbefore Hstop.
  assert (Hstops : beyond WHERE_EPSILON where_ (boundary (_lengths self) k)
                   && (Z.of_nat k <? Z.of_nat (length (_schedulers self)) - 1)%Z
                   = false).
  { apply andb_false_iff. destruct Hstop as [Hlast | Hfails].
    - right. apply Z.ltb_ge. lia.
    - left. exact Hfails. }
  induction fuel as [| fuel IH]; intros i Hik Hfuel;
    rewrite while_loop_unfold, loop_test_beyond.
  - assert (i = k) by lia. subst i. rewrite Hstops. reflexivity.
  - destruct (decide (i = k)) as [-> | Hne]; [rewrite Hstops; reflexivity |].
    rewrite (Hbefore i) by lia.
    rewrite (proj2 (Z.ltb_lt (Z.of_nat i)
                      (Z.of_nat (length (_schedulers self)) - 1))) by lia.
    cbn [andb].
    destruct (lookup_lt_is_Some_2 (_lengths self) (S i)) as [x Hx]; [lia |].
    rewrite Hx, <- (nth_lookup_Some _ _ lit_0 _ Hx).
    apply (IH (S i)); lia.
Qed.

Lemma select_reaches_first (self : Self) (where_ : F) (k : nat) :
  well_formed self ->
  (k < length (_schedulers self))%nat ->
  (forall j, (j < k)%nat ->
     beyond WHERE_EPSILON where_ (boundary (_lengths self) j) = true) ->
  (k = (length (_schedulers self) - 1)%nat
   \/ beyond WHERE_EPSILON where_ (boundary (_lengths self) k) = false) ->
  fst (select WHERE_EPSILON where_ self)
  = Return (k, boundary (_lengths self) k).
Proof.
  intros (Hlen & _ & Hpos) Hk Hbefore Hstop. rewrite select_unfold.
  destruct (lookup_lt_is_Some_2 (_lengths self) O) as [x Hx]; [lia |].
  rewrite Hx, <- (nth_lookup_Some _ _ lit_0 _ Hx).
  change (nth O (_lengths self) lit_0) with (boundary (_lengths self) O).
  rewrite (while_loop_reaches_first self where_ k Hlen Hk Hbefore Hstop);
    [| lia..].
  reflexivity.
Qed.

Lemma select_stops_first (self : Self) (where_ : F) (k : nat) :
  well_formed self ->
  selects WHERE_EPSILON self where_ k ->
  (k < length (_schedulers self))%nat
  /\ (forall j, (j < k)%nat ->
        beyond WHERE_EPSILON where_ (boundary (_lengths self) j) = true)
  /\ (k = (length (_schedulers self) - 1)%nat
      \/ beyond WHERE_EPSILON where_ (boundary (_lengths self) k) = false).
Proof.
  intros Hwf Hsel. pose proof Hwf as (Hlen & _ & Hn).
  destruct (first_failure_exists (_lengths self) where_
              (length (_schedulers self) - 1))
    as (k' & Hk' & Hbefore & Hstop).
  assert (Hsel' : selects WHERE_EPSILON self where_ k').
  { exists (boundary (_lengths self) k').
    apply select_reaches_first; try assumption. lia. }
  rewrite (selects_unique _ _ _ _ _ Hsel Hsel').
  split; [lia |]. split; assumption.
Qed.

(** X3. In a well-formed composite, for any float arithmetic and any
    progress value (not-a-number and infinities included), the selected
    segment is the first one whose upper boundary is not exceeded by [where
    + WHERE_EPSILON], or the last segment when all the earlier boundaries
    are exceeded; the boundaries are the running totals, added from the
    left. *)
Theorem selects_first_not_exceeded (self : Self) (where_ : F) (k : nat) :
  well_formed self ->
  selects WHERE_EPSILON self where_ k
  <-> (k < length (_schedulers self))%nat
      /\ (forall j, (j < k)%nat ->
            beyond WHERE_EPSILON where_ (boundary (_lengths self) j) = true)
      /\ (k = (length (_schedulers self) - 1)%nat
          \/ beyond WHERE_EPSILON where_ (boundary (_lengths self) k) = false).
Proof.
  intros Hwf. split.
  - apply select_stops_first. exact Hwf.
  - intros (Hk & Hbefore & Hstop). exists (boundary (_lengths self) k).
    apply select_reaches_first; assumption.
Qed.


(** C4, as the code has it. When the selected segment [i] is RESCALED, the
    running total is [lengths[0] + ... + lengths[i]] added from the left,
    the start of the segment is taken as [running_total - lengths[i]], and
    the sub-scheduler is called on [(where - (running_total - lengths[i])) /
    lengths[i]], all as computed; its outcome is the outcome of [__call__].
    A zero length ends the call in [ZeroDivisionError]. *)
Theorem rescaled_delegation (self : Self) (where_ : F) (i : nat)
    (running_total length_i : F) (scheduler : ClassyParamScheduler F) :
  fst (select WHERE_EPSILON where_ self) = Return (i, running_total) ->
  _interval_scaling self !! i = Some RESCALED ->
  _schedulers self !! i = Some scheduler ->
  _lengths self !! i = Some length_i ->
  running_total = boundary (_lengths self) i
  /\ match fdiv (fsub where_ (fsub running_total length_i)) length_i with
     | Some local_where =>
         fst (__call__ WHERE_EPSILON where_ self) = scheduler local_where
     | None =>
         fst (__call__ WHERE_EPSILON where_ self) = Raise ZeroDivisionError
     end.
Proof.
  intros Hsel Hmode Hsch Hl.
  destruct (select_boundary _ _ _ _ _ Hsel) as [Hrt _].
  split; [exact Hrt |].
  rewrite call_unfold, Hsel. cbn beta iota.
  rewrite delegate_unfold. unfold ClassyParamScheduler in *.
  rewrite Hsch, Hmode, Hl.
  destruct (fdiv _ _); reflexivity.
Qed.

(** C9, as the code has it. On a well-formed composite and at any
    progress value, not-a-number and infinities included: the selection
    loop ends with an index in range, every list access is in range, and,
    when no length is a zero divisor, the outcome of [__call__] is the
    outcome of the selected sub-scheduler.  The last segment is selected
    exactly when [where + WHERE_EPSILON] exceeds, as computed, every earlier
    boundary; the first segment exactly when [where + WHERE_EPSILON] does not
    exceed [lengths[0]] or there is a single segment. *)
Theorem call_total_on_floats (self : Self) (where_ : F) :
  well_formed self ->
  (forall x length_i, length_i ∈ _lengths self -> is_Some (fdiv x length_i)) ->
  exists i running_total scheduler local_where,
    fst (select WHERE_EPSILON where_ self) = Return (i, running_total)
    /\ (i < length (_schedulers self))%nat
    /\ _schedulers self !! i = Some scheduler
    /\ is_Some (_lengths self !! i)
    /\ is_Some (_interval_scaling self !! i)
    /\ fst (__call__ WHERE_EPSILON where_ self) = scheduler local_where
    /\ (i = (length (_schedulers self) - 1)%nat
        <-> forall j, (j < length (_schedulers self) - 1)%nat ->
              beyond WHERE_EPSILON where_ (boundary (_lengths self) j) = true)
    /\ (i = O
        <-> beyond WHERE_EPSILON where_ (nth O (_lengths self) lit_0) = false
            \/ length (_schedulers self) = 1%nat).
Proof.
  intros Hwf Hdivides. pose proof Hwf as (Hlen & Hmodes & Hn).
  destruct (select_terminates WHERE_EPSILON self where_ Hwf)
    as (i & rt & Hsel & Hi).
  assert (Hselects : selects WHERE_EPSILON self where_ i)
    by (exists rt; exact Hsel).
  destruct (select_stops_first self where_ i Hwf Hselects)
    as (_ & Hbefore & Hstop).
  destruct (lookup_lt_is_Some_2 (_schedulers self) i) as [scheduler Hs];
    [lia |].
  destruct (lookup_lt_is_Some_2 (_interval_scaling self) i) as [mode Hm];
    [lia |].
  destruct (lookup_lt_is_Some_2 (_lengths self) i) as [length_i Hl]; [lia |].
  assert (Hcall : exists local_where,
             fst (__call__ WHERE_EPSILON where_ self) = scheduler local_where).
  { rewrite call_unfold, Hsel. cbn beta iota.
    rewrite delegate_unfold. unfold ClassyParamScheduler in *.
    rewrite Hs, Hm. destruct mode; [| eauto].
    rewrite Hl.
    destruct (Hdivides (fsub where_ (fsub rt length_i)) length_i
                (list_elem_of_lookup_2 _ _ _ Hl)) as [q ->].
    eauto. }
  destruct Hcall as [local_where Hcall].
  exists i, rt, scheduler, local_where.
  split; [exact Hsel |]. split; [exact Hi |]. split; [exact Hs |].
  split; [eauto |]. split; [eauto |]. split; [exact Hcall |]. split.
  - split.
    + intros ->. exact Hbefore.
    + intros Hall.
      destruct Hstop as [Hlast | Hfails]; [exact Hlast |].
      destruct (decide (i = (length (_schedulers self) - 1)%nat))
        as [Hlast | Hne]; [exact Hlast | exfalso].
      rewrite (Hall i) in Hfails by lia. discriminate.
  - split.
    + intros ->. destruct Hstop as [Hlast | Hfails]; [right; lia | left].
      exact Hfails.
    + intros Hfirst.
      assert (Hreach : fst (select WHERE_EPSILON where_ self)
                       = Return (O, boundary (_lengths self) O)).
      { apply select_reaches_first; try assumption; [intros j Hj; lia |].
        destruct Hfirst as [Hfails | Hone]; [right; exact Hfails | left; lia]. }
      congruence.
Qed.

End SelectionFloat.

Section ClosingFloat.
Context {F : Type} `{PyFloat F}.
Variable build_param_scheduler :
  SubConfig F -> outcome (ClassyParamScheduler F).


(** C10, as the code has it. On a configuration that passes the
    assertions, [from_config] writes into the caller's dictionary.  When
    the supplied lengths do not sum to [1.0], the last entry of
    [config["lengths"]] is overwritten with [1.0 - sum(lengths[:-1])], and
    the dictionary is no longer what it was unless that is the value the
    entry held.  When ["num_epochs"] is present, [config["schedulers"]] is
    replaced by a list of copies with ["num_epochs"] set, and the dictionary
    is no longer what it was if some sub-configuration did not already hold
    that value.  With a sum of [1.0] and no ["num_epochs"] the dictionary is
    left as it was. *)
Theorem from_config_writes_config (config : Config F)
    (schedulers : list (SubConfig F)) (lengths : list F) :
  valid_config config ->
  config_schedulers config = Some schedulers ->
  config_lengths config = Some lengths ->
  let after := snd (from_config build_param_scheduler config) in
  (fneb (sum lengths) lit_1_0 = true ->
   config_lengths after
   = Some (<[(length lengths - 1)%nat :=
               fsub lit_1_0 (sum (but_last lengths))]> lengths)
   /\ (lengths !! (length lengths - 1)%nat
       <> Some (fsub lit_1_0 (sum (but_last lengths))) ->
       after <> config))
  /\ (forall value, config_num_epochs config = Some value ->
      config_schedulers after
      = Some ((fun schedule => <["num_epochs" := value]> schedule)
                <$> schedulers)
      /\ ((exists schedule, schedule ∈ schedulers
                            /\ schedule !! "num_epochs" <> Some value) ->
          after <> config))
  /\ (fneb (sum lengths) lit_1_0 = false ->
      config_num_epochs config = None -> after = config).
Proof.
  intros Hvalid Hs Hl after. unfold after.
  rewrite (from_config_valid build_param_scheduler config Hvalid).
  cbn [snd]. clear after.
  destruct Hvalid as (schedulers' & lengths' & Hs' & Hl' & Hlen & Hn & _).
  assert (schedulers' = schedulers) by congruence.
  assert (lengths' = lengths) by congruence. subst schedulers' lengths'.
  split; [| split].
  - intros Hoff.
    assert (Hafter : config_lengths (config_after config)
                     = Some (<[(length lengths - 1)%nat :=
                                 fsub lit_1_0 (sum (but_last lengths))]>
                               lengths)).
    { unfold config_after. cbn [config_lengths]. rewrite Hl.
      unfold closed_lengths. cbn [fmap option_fmap option_map].
      rewrite Hoff. reflexivity. }
    split; [exact Hafter |].
    intros Hother Hsame. apply Hother.
    rewrite Hsame, Hl in Hafter. injection Hafter as Hafter.
    assert (Hlast : (<[(length lengths - 1)%nat :=
                         fsub lit_1_0 (sum (but_last lengths))]> lengths)
                    !! (length lengths - 1)%nat
                    = Some (fsub lit_1_0 (sum (but_last lengths))))
      by (apply list_lookup_insert_eq; lia).
    rewrite <- Hafter in Hlast. exact Hlast.
  - intros value Hvalue.
    assert (Hafter : config_schedulers (config_after config)
                     = Some ((fun schedule => <["num_epochs" := value]> schedule)
                               <$> schedulers))
      by (unfold config_after; cbn [config_schedulers];
          rewrite Hs, Hvalue; reflexivity).
    split; [exact Hafter |].
    intros (schedule & Hin & Hlookup) Hsame.
    rewrite Hsame, Hs in Hafter. injection Hafter as Hcopies.
    apply list_elem_of_lookup in Hin. destruct Hin as [i Hi].
    assert (Hcopy : ((fun schedule => <["num_epochs" := value]> schedule)
                       <$> schedulers) !! i
                    = Some (<["num_epochs" := value]> schedule))
      by (rewrite list_lookup_fmap, Hi; reflexivity).
    rewrite <- Hcopies, Hi in Hcopy. injection Hcopy as Hcopy.
    apply Hlookup. rewrite Hcopy. unfold SubConfig in *.
    apply lookup_insert_eq.
  - intros Hone Hnone. unfold config_after.
    destruct config as [cs cl cu ci cn]; simpl in *. subst cs cl cn. simpl.
    unfold closed_lengths. rewrite Hone. reflexivity.
Qed.

End ClosingFloat.

(** ** Runs in binary64 *)

Section RunsBinary64.
Import Scenario.

Lemma three_way_binary64_well_formed : well_formed three_way_binary64.
Proof. unfold well_formed; simpl; lia. Qed.

Lemma with_num_epochs_binary64_valid : valid_config with_num_epochs_binary64.
Proof.
  exists two_sub_configs, [0.3; 0.7001]%float.
  split; [reflexivity |]. split; [reflexivity |]. split; [reflexivity |].
  split; [simpl; lia |]. split; [vm_compute; reflexivity |]. split.
  - intros name Hname. injection Hname as <-. eexists; reflexivity.
  - intros scales Hscales. injection Hscales as <-.
    split; [reflexivity | eexists; reflexivity].
Qed.




(** C4 fails as stated on the code's arithmetic: in Scenario A in binary64,
    [where = 0.3] is the sum of the lengths before segment 1 and selects
    segment 1, but the start that the code computes, [running_total -
    lengths[1]], is another float, and the second sub-scheduler is called on
    a negative local progress, not on [0.0]. *)
Lemma rescaled_start_is_not_zero_binary64 :
  0.3%float = segment_start (_lengths constant_then_echo_binary64) 1
  /\ selects epsilon_binary64 constant_then_echo_binary64 0.3%float 1
  /\ PrimFloat.eqb
       (fsub (boundary (_lengths constant_then_echo_binary64) 1) 0.7%float)
       (segment_start (_lengths constant_then_echo_binary64) 1) = false
  /\ exists local_where,
       fst (__call__ epsilon_binary64 0.3%float constant_then_echo_binary64)
       = Return local_where
       /\ PrimFloat.eqb local_where 0%float = false
       /\ PrimFloat.ltb local_where 0%float = true.
Proof.
  split; [reflexivity |]. split; [eexists; vm_compute; reflexivity |].
  split; [vm_compute; reflexivity |].
  eexists. split; [vm_compute; reflexivity |]. split; vm_compute; reflexivity.
Qed.

(** Scenario A in binary64 at [where = 0.3]: the second sub-scheduler is
    called on [(0.3 - (1.0 - 0.7)) / 0.7] as computed. *)
Lemma rescaled_delegation_binary64 :
  fst (__call__ epsilon_binary64 0.3%float constant_then_echo_binary64)
  = Return (PrimFloat.div
              (PrimFloat.sub 0.3 (PrimFloat.sub (PrimFloat.add 0.3 0.7) 0.7))
              0.7)%float.
Proof.
  assert (Hselect : fst (select epsilon_binary64 0.3%float
                           constant_then_echo_binary64)
                    = Return (1%nat, PrimFloat.add 0.3 0.7)%float)
    by (vm_compute; reflexivity).
  destruct (rescaled_delegation epsilon_binary64 constant_then_echo_binary64
              0.3%float 1 (PrimFloat.add 0.3 0.7)%float 0.7%float echo
              Hselect eq_refl eq_refl eq_refl)
    as [_ Hcall].
  exact Hcall.
Defined.

(** On [three_way] in binary64, every progress value selects a segment in
    range and the call is the outcome of its sub-scheduler; [where = 1.5]
    selects the last segment. *)
Lemma three_way_binary64_call_total :
  selects epsilon_binary64 three_way_binary64 1.5%float 2.
Proof.
  destruct (call_total_on_floats epsilon_binary64 three_way_binary64 1.5%float)
    as (i & rt & scheduler & local_where & Hsel & _ & _ & _ & _ & _
        & Hlast & _).
  - exact three_way_binary64_well_formed.
  - intros x length_i Hin. cbn [_lengths three_way_binary64 __init__] in Hin.
    repeat (apply elem_of_cons in Hin; destruct Hin as [-> | Hin];
            [eexists; reflexivity |]).
    apply elem_of_nil in Hin. contradiction.
  - exists rt. rewrite Hsel. f_equal. f_equal. apply Hlast.
    intros j Hj. cbn [_schedulers three_way_binary64 __init__ length] in Hj.
    destruct j as [| [| j]]; [vm_compute; reflexivity .. | lia].
Defined.



(** C10 fails as stated on the code's arithmetic: for the same lengths the
    supplied sum is not [1.0], the last entry is overwritten with the value
    it held, and the caller's dictionary is what it was. *)
Lemma negative_first_left_as_it_was_binary64 :
  fneb (sum [(-1e-16); 1.0]%float) 1.0%float = true
  /\ config_num_epochs negative_first_binary64 = None
  /\ snd (from_config build_echo negative_first_binary64)
     = negative_first_binary64.
Proof.
  split; [vm_compute; reflexivity |]. split; [reflexivity |].
  vm_compute. reflexivity.
Qed.

(** [with_num_epochs] in binary64: the caller's dictionary holds other
    lengths and other sub-configurations after the construction. *)
Lemma with_num_epochs_binary64_written :
  let after := snd (from_config build_echo with_num_epochs_binary64) in
  config_lengths after = Some [0.3; 0.7]%float
  /\ config_schedulers after
     = Some ((fun schedule => <["num_epochs" := PyInt 90]> schedule)
               <$> two_sub_configs)
  /\ after <> with_num_epochs_binary64.
Proof.
  assert (Hoff : fneb (sum [0.3; 0.7001]%float) lit_1_0 = true)
    by (vm_compute; reflexivity).
  destruct (from_config_writes_config build_echo with_num_epochs_binary64
              two_sub_configs [0.3; 0.7001]%float
              with_num_epochs_binary64_valid eq_refl eq_refl)
    as (Hlengths & Hschedulers & _).
  destruct (Hlengths Hoff) as [Hlast Hchanged].
  destruct (Hschedulers (PyInt 90) eq_refl) as [Hcopies _].
  split; [rewrite Hlast; vm_compute; reflexivity |].
  split; [exact Hcopies |].
  apply Hchanged. intros Hsame.
  apply (f_equal (fun entry =>
                    match entry with
                    | Some x => PrimFloat.eqb x 0.7001%float
                    | None => false
                    end)) in Hsame.
  vm_compute in Hsame. discriminate Hsame.
Defined.

(** On [three_way] in binary64, [where = 0.5] exceeds the first boundary
    and not the second, and selects segment 1. *)
Lemma three_way_binary64_half_selects_second :
  selects epsilon_binary64 three_way_binary64 0.5%float 1.
Proof.
  apply (proj2 (selects_first_not_exceeded epsilon_binary64 three_way_binary64
                  0.5%float 1 three_way_binary64_well_formed)).
  split; [simpl; lia |]. split.
  - intros j Hj. assert (j = O) by lia. subst j. vm_compute. reflexivity.
  - right. vm_compute. reflexivity.
Defined.

(** A progress value that is not a number exceeds no boundary: on
    [three_way] in binary64 it selects the first segment. *)
Lemma three_way_binary64_nan_selects_first :
  beyond epsilon_binary64 PrimFloat.nan
    (boundary (_lengths three_way_binary64) 0) = false
  /\ selects epsilon_binary64 three_way_binary64 PrimFloat.nan 0.
Proof.
  split; [vm_compute; reflexivity |]. eexists. vm_compute. reflexivity.
Qed.

End RunsBinary64.
